(** * Simulador TRI-ENEM: the estimation engine

    A shallow embedding of [src/tri_engine.py] (class [TRIEngine]) and the
    properties its specification states about it.

    Numeric model.  The engine computes on IEEE doubles through numpy.
    Two embeddings of it are given.  In the first, on which the development
    rests, a float is a real number ([R]): arithmetic is exact, there is no
    rounding, no overflow and no NaN; it says what the formulas of the
    source mean.  In the second (module [binary64]) a float is a double:
    every operation rounds, overflows and propagates NaN as IEEE 754 has
    it, and numpy's [exp], [log] and [sum] are an interface; it shows where
    the program leaves the formulas, and what it does instead.  Integer
    arrays (the response vector) are lists of [Z], float arrays are lists
    of [R] or of doubles, boolean masks are lists of [bool].  Numpy's shape
    errors and index errors are modelled explicitly by the [result] type,
    so that a call that raises in Python is a [Raise] here.

    The optimiser ([scipy.optimize.minimize]) is not part of the repository:
    it is a parameter of the development. *)

From Stdlib Require Import Floats.
From Stdlib Require Import String.
From Stdlib Require Import Reals Lra Lia List ZArith Bool Permutation Sorted.
Import ListNotations.
Open Scope R_scope.

(** ** Exceptions *)

Inductive exn : Type :=
| ValueError   (* operands could not be broadcast together *)
| IndexError.  (* index out of bounds, or boolean index of the wrong size *)

Inductive result (A : Type) : Type :=
| Ok (v : A)
| Raise (e : exn).

Arguments Ok {A} v.
Arguments Raise {A} e.

Definition bind {A B : Type} (m : result A) (k : A -> result B) : result B :=
  match m with
  | Ok v => k v
  | Raise e => Raise e
  end.

Notation "x <- m ;; k" := (bind m (fun x => k))
  (at level 61, m at next level, right associativity).

(** ** The fragment of numpy the engine uses *)

Module np.

(** Index-by-index combination of two arrays of one shape. *)
Definition zip_with {A B C : Type} (f : A -> B -> C)
           (x : list A) (y : list B) : list C :=
  map (fun p => f (fst p) (snd p)) (combine x y).

(** Elementwise binary operation on two 1-d arrays, with numpy's
    broadcasting: equal shapes combine index by index, a one-element array
    is stretched, anything else raises. *)
Definition broadcast {A B C : Type} (f : A -> B -> C)
           (x : list A) (y : list B) : result (list C) :=
  if (length x =? length y)%nat
  then Ok (zip_with f x y)
  else match x, y with
       | [u], _ => Ok (map (f u) y)
       | _, [v] => Ok (map (fun u => f u v) x)
       | _, _ => Raise ValueError
       end.

(** [np.exp] and [np.log], elementwise.  Numpy's logarithm is minus
    infinity at 0 and NaN below it; [ln] is the logarithm on the positive
    reals only, which is where the engine calls it (see
    [log_posterior_finite]). *)
Definition exp (x : list R) : list R := map Rtrigo_def.exp x.
Definition log (x : list R) : list R := map ln x.

(** [np.clip(x, lo, hi)] is [minimum(hi, maximum(x, lo))]. *)
Definition clip1 (lo hi v : R) : R := Rmin hi (Rmax v lo).
Definition clip (x : list R) (lo hi : R) : list R := map (clip1 lo hi) x.

(** [np.sum] on a float array and on an integer array. *)
Definition sum (x : list R) : R := fold_right Rplus 0 x.
Definition isum (x : list Z) : Z := fold_right Z.add 0%Z x.

(** [np.mean] of an integer array: the sum over the number of elements,
    as a float. *)
Definition mean (x : list Z) : R := IZR (isum x) / INR (length x).

(** [np.any] of a boolean array. *)
Definition any (m : list bool) : bool := existsb (fun v => v) m.

(** [x < s] for an array [x] and a scalar [s]. *)
Definition Rltb (u v : R) : bool := if Rlt_dec u v then true else false.
Definition less (x : list R) (s : R) : list bool :=
  map (fun v => Rltb v s) x.

(** Boolean-mask indexing [x[m]]: the mask must have the shape of [x]. *)
Fixpoint select {A : Type} (x : list A) (m : list bool) : list A :=
  match x, m with
  | v :: x', k :: m' => if k then v :: select x' m' else select x' m'
  | _, _ => []
  end.

Definition index_mask {A : Type} (x : list A) (m : list bool)
  : result (list A) :=
  if (length x =? length m)%nat then Ok (select x m) else Raise IndexError.

(** Integer-array indexing [x[idx]]: every index must be in range. *)
Fixpoint index_array {A : Type} (x : list A) (idx : list nat)
  : result (list A) :=
  match idx with
  | [] => Ok []
  | i :: idx' =>
      match nth_error x i with
      | Some v => r <- index_array x idx' ;; Ok (v :: r)
      | None => Raise IndexError
      end
  end.

(** [np.argsort]: the indices that sort the array in increasing order.
    Numpy leaves the order of equal keys open; insertion keeps the lower
    index first. *)
Fixpoint insert_by (key : nat -> R) (i : nat) (l : list nat) : list nat :=
  match l with
  | [] => [i]
  | j :: l' =>
      if Rle_dec (key i) (key j) then i :: l else j :: insert_by key i l'
  end.

Definition argsort (x : list R) : list nat :=
  fold_right (insert_by (fun i => nth i x 0)) [] (seq 0 (length x)).

End np.

(** ** Python's [round(x, ndigits)] on a float

    The nearest multiple of [10^-ndigits], a tie going to the even one. *)

Definition rint (x : R) : Z :=
  let f := Int_part x in
  let d := x - IZR f in
  if Rlt_dec d (1 / 2) then f
  else if Rlt_dec (1 / 2) d then (f + 1)%Z
       else if Z.even f then f else (f + 1)%Z.

Definition round (x : R) (ndigits : nat) : R :=
  IZR (rint (x * 10 ^ ndigits)) / 10 ^ ndigits.

(** ** scipy's [OptimizeResult], as far as the engine reads it *)

Record OptimizeResult : Type := {
  x : list R;       (* the solution array *)
  success : bool    (* whether the optimiser exited successfully *)
}.

(** ** The engine *)

Record TRIEngine : Type := {
  mean_scale : R;
  std_scale : R
}.

(** [TRIEngine.__init__(self, mean_scale=500, std_scale=100)] *)
Definition __init__ (mean std : option R) : TRIEngine :=
  {| mean_scale := match mean with Some m => m | None => 500 end;
     std_scale := match std with Some s => s | None => 100 end |}.

(** The record [analyze_consistency] returns. *)
Record analysis : Type := {
  total_acertos : Z;
  theta_estimado : R;
  coerencia : string
}.

Section Engine.

(** [scipy.optimize.minimize(objective, x0, method='BFGS')]: given the
    objective and the starting point, it returns a result record, or lets
    an exception of the objective through. *)
Variable minimize : (R -> result R) -> R -> result OptimizeResult.

(** [logistic_3pl] on scalars. *)
Definition logistic_3pl (self : TRIEngine) (theta a b c : R) : R :=
  c + (1 - c) / (1 + exp (- a * (theta - b))).

(** [logistic_3pl] on a scalar [theta] and item-parameter arrays, as
    [log_posterior] calls it. *)
Definition logistic_3pl_arr (self : TRIEngine) (theta : R) (a b c : list R)
  : result (list R) :=
  e <- np.broadcast Rmult (map Ropp a) (map (fun v => theta - v) b) ;;
  q <- np.broadcast Rdiv (map (fun v => 1 - v) c)
                         (map (fun v => 1 + v) (np.exp e)) ;;
  np.broadcast Rplus c q.

(** The clipped probabilities, line 26-27 of the source. *)
Definition clipped_p (self : TRIEngine) (theta : R)
           (params_a params_b params_c : list R) : result (list R) :=
  p <- logistic_3pl_arr self theta params_a params_b params_c ;;
  Ok (np.clip p 1e-10 (1 - 1e-10)).

Definition log_posterior (self : TRIEngine) (theta : R) (responses : list Z)
           (params_a params_b params_c : list R) : result R :=
  p <- clipped_p self theta params_a params_b params_c ;;
  t1 <- np.broadcast (fun r l => IZR r * l) responses (np.log p) ;;
  t0 <- np.broadcast (fun r l => IZR r * l)
                     (map (fun r => (1 - r)%Z) responses)
                     (np.log (map (fun v => 1 - v) p)) ;;
  t <- np.broadcast Rplus t1 t0 ;;
  let log_l := np.sum t in
  let log_prior := - 0.5 * theta ^ 2 in
  Ok (log_l + log_prior).

(** The objective of [estimate_theta], line 41 of the source:
    [lambda t: -self.log_posterior(t, responses, params_a, params_b, params_c)] *)
Definition objective (self : TRIEngine) (responses : list Z)
           (params_a params_b params_c : list R) : R -> result R :=
  fun t =>
    v <- log_posterior self t responses params_a params_b params_c ;;
    Ok (- v).

Definition estimate_theta (self : TRIEngine) (responses : list Z)
           (params_a params_b params_c : list R) : result R :=
  let objective := objective self responses params_a params_b params_c in
  let initial_theta := 0.0 in
  res <- minimize objective initial_theta ;;
  if success res
  then match nth_error (x res) 0 with
       | Some v => Ok v
       | None => Raise IndexError
       end
  else Ok initial_theta.

Definition to_enem_score (self : TRIEngine) (theta : R) : R :=
  mean_scale self + (std_scale self * theta).

Definition _check_coherence (self : TRIEngine) (theta : R)
           (responses : list Z) (params_b : list R) : result bool :=
  let easy_items_mask := np.less params_b (theta - 1.0) in
  if np.any easy_items_mask then
    easy_responses <- np.index_mask responses easy_items_mask ;;
    let accuracy_easy := np.mean easy_responses in
    if Rlt_dec accuracy_easy 0.5 then Ok false else Ok true
  else Ok true.

Definition analyze_consistency (self : TRIEngine) (theta : R)
           (responses : list Z) (params_b : list R) : result analysis :=
  let sorted_indices := np.argsort params_b in
  sorted_responses <- np.index_array responses sorted_indices ;;
  sorted_diffs <- np.index_array params_b sorted_indices ;;
  ok <- _check_coherence self theta responses params_b ;;
  Ok {| total_acertos := np.isum responses;
        theta_estimado := round theta 4;
        coerencia := if ok then "Alta"%string else "Baixa"%string |}.

(** [analyze_consistency] with the argsort-based reordering (lines 59-61 of
    the source) removed; everything else is the source's. *)
Definition analyze_consistency_nosort (self : TRIEngine) (theta : R)
           (responses : list Z) (params_b : list R) : result analysis :=
  ok <- _check_coherence self theta responses params_b ;;
  Ok {| total_acertos := np.isum responses;
        theta_estimado := round theta 4;
        coerencia := if ok then "Alta"%string else "Baixa"%string |}.

End Engine.

(** ** The specification's formulas, written as the specification words them *)

(** [big_sum n f] is the sum of [f i] over the items [i = 0 .. n-1]. *)
Fixpoint big_sum (n : nat) (f : nat -> R) : R :=
  match n with
  | O => 0
  | S k => big_sum k f + f k
  end.

(** The probability of item [i], clipped to [[1e-10, 1 - 1e-10]]. *)
Definition P' (self : TRIEngine) (theta : R) (a b c : list R) (i : nat) : R :=
  np.clip1 1e-10 (1 - 1e-10)
           (logistic_3pl self theta (nth i a 0) (nth i b 0) (nth i c 0)).

(** [sum_i (r_i log P'_i + (1 - r_i) log (1 - P'_i)) - 0.5 theta^2] *)
Definition log_posterior_formula (self : TRIEngine) (theta : R)
           (r : list Z) (a b c : list R) : R :=
  big_sum (length r)
          (fun i => IZR (nth i r 0%Z) * ln (P' self theta a b c i)
                    + (1 - IZR (nth i r 0%Z)) * ln (1 - P' self theta a b c i))
  - 0.5 * theta ^ 2.

(** The easy subset: the items, as (response, difficulty) pairs, whose
    difficulty is below [theta - 1.0]. *)
Definition easy_subset (theta : R) (r : list Z) (b : list R)
  : list (Z * R) :=
  filter (fun it => np.Rltb (snd it) (theta - 1.0)) (combine r b).

(** The fraction of correct responses within a set of items. *)
Definition accuracy (items : list (Z * R)) : R :=
  IZR (np.isum (map fst items)) / INR (length items).

(** The two coherence labels, as the engine spells them. *)
Definition High : string := "Alta".
Definition Low : string := "Baixa".

(** The coherence rule: High on an empty easy subset; otherwise Low when the
    accuracy within the easy subset is below 0.5 and High when it is not. *)
Definition coherence_label (theta : R) (r : list Z) (b : list R) : string :=
  let easy := easy_subset theta r b in
  match easy with
  | [] => High
  | _ :: _ => if Rlt_dec (accuracy easy) 0.5 then Low else High
  end.

(** An optimiser that gives up at once and reports it, as [minimize] does
    when its iteration cap is reached. *)
Definition minimize_gives_up (f : R -> result R) (x0 : R)
  : result OptimizeResult :=
  Ok {| x := [x0]; success := false |}.


(** [map3 f a b c] applies [f] to the items of three aligned arrays. *)
Fixpoint map3 {A B C D : Type} (f : A -> B -> C -> D)
         (a : list A) (b : list B) (c : list C) : list D :=
  match a, b, c with
  | a0 :: a', b0 :: b', c0 :: c' => f a0 b0 c0 :: map3 f a' b' c'
  | _, _, _ => []
  end.

(** ** Shapes *)

(** Two 1-d shapes numpy broadcasts together, and the shape of the outcome. *)
Definition compatible (n m : nat) : Prop := n = m \/ n = 1%nat \/ m = 1%nat.

Definition broadcast_length (n m : nat) : nat :=
  if (n =? m)%nat then n else if (n =? 1)%nat then m else n.

(** Item parameters on which the clipping of [log_posterior] has nothing to
    do: a guessing floor between [1e-10] and one half, and an ability at most
    [20 / a] above the difficulty. *)
Definition unclipped_item (theta : R) (it : R * (R * R)) : Prop :=
  let a := fst it in
  let b := fst (snd it) in
  let c := snd (snd it) in
  1e-10 <= c <= 0.5 /\ a * (theta - b) <= 20.

(** An optimiser that evaluates the objective at the starting point, lets
    its exception through, and otherwise reports that it gave up. *)
Definition minimize_evaluates (f : R -> result R) (x0 : R)
  : result OptimizeResult :=
  _ <- f x0 ;; Ok {| x := [x0]; success := false |}.

(** ** The analysis tab of the application ([src/app.py])

    Lines 218-221: the engine is built with its defaults and run on the
    responses and the item parameters. *)
Definition calcular_tri
           (minimize : (R -> result R) -> R -> result OptimizeResult)
           (respostas : list Z) (params_a params_b params_c : list R)
  : result (R * R * analysis) :=
  let engine := __init__ None None in
  theta_estimado <- estimate_theta minimize engine respostas
                                   params_a params_b params_c ;;
  let nota_enem := to_enem_score engine theta_estimado in
  analise <- analyze_consistency engine theta_estimado respostas params_b ;;
  Ok (theta_estimado, nota_enem, analise).

(** [np.linspace(start, stop, num)]: [num] evenly spaced values, the last
    one being [stop]. *)
Definition np_linspace (start stop : R) (num : nat) : list R :=
  match num with
  | O => []
  | S O => [start]
  | _ => map (fun i => start + INR i * ((stop - start) / INR (num - 1)))
             (seq 0 num)
  end.

(** Lines 350-376: which of the three recommendation boxes is shown. *)
Inductive recomendacao_box : Type :=
| st_success   (* "Parabens!", 900 and above *)
| st_info      (* "Voce esta no caminho certo!", 800 and above *)
| st_warning.  (* "Ha espaco para melhoria!" *)

Definition recomendacao (nota_enem : R) : recomendacao_box :=
  if Rge_dec nota_enem 900 then st_success
  else if Rge_dec nota_enem 800 then st_info
       else st_warning.

(** ** The data loader ([src/data_loader.py])

    The loader draws from numpy's global generator.  The generator is not
    part of the repository: it is an interface, with the state it keeps
    between calls made explicit.  [seeded s] is the state
    [np.random.seed(s)] installs, whatever the state was before; a drawing
    function returns what it drew and the state it leaves. *)
Record Generator : Type := {
  rng : Type;
  seeded : Z -> rng;
  normal : R -> R -> nat -> rng -> list R * rng;
  uniform : R -> R -> nat -> rng -> list R * rng;
  random : rng -> R * rng;
  randint : Z -> Z -> nat -> rng -> list Z * rng
}.

(** What numpy documents of the drawing functions: the size of the sample,
    [uniform] within [[low, high)], [random] within [[0, 1)] and [randint]
    within [[low, high)]. *)
Record GeneratorSpec (G : Generator) : Prop := {
  normal_length : forall mu sigma n st,
      length (fst (normal G mu sigma n st)) = n;
  uniform_length : forall lo hi n st,
      length (fst (uniform G lo hi n st)) = n;
  uniform_range : forall lo hi n st,
      lo < hi ->
      Forall (fun v => lo <= v < hi) (fst (uniform G lo hi n st));
  random_range : forall st, 0 <= fst (random G st) < 1;
  randint_length : forall lo hi n st,
      length (fst (randint G lo hi n st)) = n;
  randint_range : forall lo hi n st,
      (lo < hi)%Z ->
      Forall (fun v => (lo <= v < hi)%Z) (fst (randint G lo hi n st))
}.

(** A generator that keeps a counter of the values drawn and always draws
    the lowest value allowed. *)
Definition lowest_generator : Generator :=
  {| rng := nat;
     seeded := fun s => Z.to_nat s;
     normal := fun mu sigma n st => (repeat mu n, (st + n)%nat);
     uniform := fun lo hi n st => (repeat lo n, (st + n)%nat);
     random := fun st => (0, S st);
     randint := fun lo hi n st => (repeat lo n, (st + n)%nat) |}.

(** [np.random.seed(s)]: the seed must be between 0 and [2^32 - 1]. *)
Definition np_random_seed (G : Generator) (s : Z) (st : rng G)
  : result (rng G) :=
  if ((0 <=? s) && (s <? 2 ^ 32))%Z then Ok (seeded G s)
  else Raise ValueError.

(** The frame [gerar_parametros_realistas] builds: four columns. *)
Record ParamsFrame : Type := {
  item_id : list Z;
  col_a : list R;
  col_b : list R;
  col_c : list R
}.

(** [pd.DataFrame({'item_id': ..., 'a': ..., 'b': ..., 'c': ...})]: the
    columns must have one length. *)
Definition DataFrame (ids : list Z) (a b c : list R) : result ParamsFrame :=
  if ((length ids =? length a) && (length a =? length b)
      && (length b =? length c))%nat
  then Ok {| item_id := ids; col_a := a; col_b := b; col_c := c |}
  else Raise ValueError.

(** [range(1, num_itens + 1)] *)
Definition range_from_1 (num_itens : nat) : list Z :=
  map Z.of_nat (seq 1 num_itens).

(** [gerar_parametros_realistas(num_itens=180, seed=None)].  A seed that is
    [None] or 0 is falsy: the generator is then left as it is.  The number
    of items is a count: numpy refuses a negative size. *)
Definition gerar_parametros_realistas (G : Generator)
           (num_itens : option nat) (seed : option Z) (st : rng G)
  : result (ParamsFrame * rng G) :=
  let num_itens := match num_itens with Some n => n | None => 180%nat end in
  st <- match seed with
        | Some s => if (s =? 0)%Z then Ok st else np_random_seed G s st
        | None => Ok st
        end ;;
  let (a, st) := normal G 1.4 0.4 num_itens st in
  let a := np.clip a 0.5 3.0 in
  let (b, st) := normal G 0 1.2 num_itens st in
  let b := np.clip b (-3) 3 in
  let (c, st) := uniform G 0.15 0.25 num_itens st in
  df <- DataFrame (range_from_1 num_itens) a b c ;;
  Ok (df, st).

(** [params.iterrows()]: the rows of the frame, as (a, b, c). *)
Definition iterrows (params : ParamsFrame) : list (R * R * R) :=
  combine (combine (col_a params) (col_b params)) (col_c params).

(** The loop of [gerar_exemplo_aluno_coerente], lines 84-88: one draw per
    row, answered correctly when the draw is below the 3PL probability. *)
Fixpoint simular_respostas (G : Generator) (theta_aluno : R)
         (rows : list (R * R * R)) (st : rng G) : list Z * rng G :=
  match rows with
  | [] => ([], st)
  | (a, b, c) :: rows' =>
      let p := c + (1 - c) / (1 + exp (- a * (theta_aluno - b))) in
      let (u, st) := random G st in
      let resposta := if Rlt_dec u p then 1%Z else 0%Z in
      let (respostas, st) := simular_respostas G theta_aluno rows' st in
      (resposta :: respostas, st)
  end.

(** [gerar_exemplo_aluno_coerente(num_itens=45)] *)
Definition gerar_exemplo_aluno_coerente (G : Generator)
           (num_itens : option nat) (st : rng G)
  : result (list Z * ParamsFrame * rng G) :=
  let num_itens := match num_itens with Some n => n | None => 45%nat end in
  st <- np_random_seed G 42 st ;;
  out <- gerar_parametros_realistas G (Some num_itens) (Some 42%Z) st ;;
  let (params, st) := out in
  let theta_aluno := 0.5 in
  let (respostas, st) := simular_respostas G theta_aluno (iterrows params) st in
  Ok (respostas, params, st).

(** [gerar_exemplo_aluno_incoerente(num_itens=45)] *)
Definition gerar_exemplo_aluno_incoerente (G : Generator)
           (num_itens : option nat) (st : rng G)
  : result (list Z * ParamsFrame * rng G) :=
  let num_itens := match num_itens with Some n => n | None => 45%nat end in
  st <- np_random_seed G 42 st ;;
  out <- gerar_parametros_realistas G (Some num_itens) (Some 42%Z) st ;;
  let (params, st) := out in
  let (respostas, st) := randint G 0 2 num_itens st in
  Ok (respostas, params, st).

(** The parameters the application simulates when none were uploaded
    ([src/app.py], lines 207-213): the generator is reseeded with 42, the
    difficulties are spread evenly from -3 to 3 in the order of the
    questions. *)
Definition parametros_simulados (G : Generator) (respostas : list Z)
           (st : rng G) : result (list R * list R * list R * rng G) :=
  st <- np_random_seed G 42 st ;;
  let num_itens := length respostas in
  let (params_a, st) := uniform G 0.8 2.5 num_itens st in
  let params_b := np_linspace (-3) 3 num_itens in
  let (params_c, st) := uniform G 0.15 0.25 num_itens st in
  Ok (params_a, params_b, params_c, st).

(** *** Frames read from a file

    A frame read by [pd.read_csv] has whatever columns the file has: it is
    the list of its columns, each a label and its cells, in the order of
    the file.  Labels may repeat. *)
Definition Frame (cell : Type) : Type := list (string * list cell).

Definition columns {cell : Type} (df : Frame cell) : list string :=
  map fst df.

(** [label in df.columns] *)
Definition has_column {cell : Type} (df : Frame cell) (label : string)
  : bool :=
  existsb (String.eqb label) (columns df).

(** [df.rename(columns=mapping)]: a label the mapping has is replaced, any
    other is kept. *)
Fixpoint lookup (mapping : list (string * string)) (label : string)
  : option string :=
  match mapping with
  | [] => None
  | (k, v) :: mapping' =>
      if String.eqb k label then Some v else lookup mapping' label
  end.

Definition rename_label (mapping : list (string * string)) (label : string)
  : string :=
  match lookup mapping label with
  | Some v => v
  | None => label
  end.

Definition rename {cell : Type} (mapping : list (string * string))
           (df : Frame cell) : Frame cell :=
  map (fun col => (rename_label mapping (fst col), snd col)) df.

(** [df[labels]]: for each label asked, in the order asked, every column
    that carries it. *)
Definition getitem {cell : Type} (df : Frame cell) (labels : list string)
  : Frame cell :=
  flat_map (fun label => filter (fun col => String.eqb (fst col) label) df)
           labels.

Definition mapeamento : list (string * string) :=
  [("discriminacao", "a"); ("dificuldade", "b"); ("acerto_casual", "c")]%string.

Definition colunas_necessarias : list string := ["a"; "b"; "c"]%string.

(** What [carregar_csv] can end with other than a frame: whatever
    [pd.read_csv] raised, or its own [ValueError] on missing columns. *)
Inductive load_error : Type :=
| ReadCsvError
| ColunasAusentes.  (* ValueError("CSV deve conter as colunas: ['a', 'b', 'c']") *)

(** [carregar_csv(caminho)], with [pd.read_csv] a parameter. *)
Definition carregar_csv {cell : Type}
           (read_csv : string -> option (Frame cell)) (caminho : string)
  : load_error + Frame cell :=
  match read_csv caminho with
  | None => inl ReadCsvError
  | Some df =>
      let df := rename mapeamento df in
      if forallb (has_column df) colunas_necessarias
      then inr (getitem df colunas_necessarias)
      else inl ColunasAusentes
  end.

(** The test the upload of the application makes on the frame it read,
    lines 75-76 of [src/app.py]: the same test, on the labels as they are
    in the file. *)
Definition app_colunas_validas {cell : Type} (df_params : Frame cell) : bool :=
  forallb (has_column df_params) colunas_necessarias.

(** ** The responses typed in the application ([src/app.py], lines 138-150)

    A Python [str] is a sequence of code points.  What the interpreter
    decides from its Unicode tables and its settings is an interface: the
    decimal value of a digit outside ASCII, and the limit on the number of
    digits [int] converts ([sys.get_int_max_str_digits()], [None] where the
    interpreter has no limit). *)
Definition pystr : Type := list N.

Record Interpreter : Type := {
  unicode_decimal : N -> option N;
  int_max_str_digits : option nat
}.

(** [str.isspace] on one character. *)
Definition isspace (ch : N) : bool :=
  ((9 <=? ch) && (ch <=? 13) || (28 <=? ch) && (ch <=? 32)
   || (ch =? 133) || (ch =? 160) || (ch =? 5760)
   || (8192 <=? ch) && (ch <=? 8202)
   || (ch =? 8232) || (ch =? 8233) || (ch =? 8239) || (ch =? 8287)
   || (ch =? 12288))%N.

Definition comma : N := 44.
Definition space : N := 32.
Definition plus_sign : N := 43.
Definition minus_sign : N := 45.
Definition underscore : N := 95.

(** [s.replace(",", " ")] *)
Definition replace_commas (s : pystr) : pystr :=
  map (fun ch => if (ch =? comma)%N then space else ch) s.

(** [s.split()]: the maximal runs of characters that are not whitespace.
    [tok] holds the characters of the run being read, last first. *)
Fixpoint split_from (s : pystr) (tok : pystr) : list pystr :=
  match s with
  | [] => match tok with [] => [] | _ :: _ => [rev tok] end
  | ch :: s' =>
      if isspace ch
      then match tok with
           | [] => split_from s' []
           | _ :: _ => rev tok :: split_from s' []
           end
      else split_from s' (ch :: tok)
  end.

Definition split (s : pystr) : list pystr := split_from s [].

(** The decimal value of a character, if it is a decimal digit. *)
Definition digit_value (py : Interpreter) (ch : N) : option N :=
  if ((48 <=? ch) && (ch <=? 57))%N then Some (ch - 48)%N
  else if (ch <? 128)%N then None
       else unicode_decimal py ch.

(** The digits of an integer literal after the first one: digits, with
    single underscores between them.  Returns the value and the number of
    digits read. *)
Fixpoint int_digits (py : Interpreter) (s : pystr) (acc : Z) (n : nat)
         (after_underscore : bool) : option (Z * nat) :=
  match s with
  | [] => if after_underscore then None else Some (acc, n)
  | ch :: s' =>
      if (ch =? underscore)%N
      then if after_underscore then None
           else int_digits py s' acc n true
      else match digit_value py ch with
           | Some d => int_digits py s' (10 * acc + Z.of_N d)%Z (S n) false
           | None => None
           end
  end.

Fixpoint lstrip (s : pystr) : pystr :=
  match s with
  | [] => []
  | ch :: s' => if isspace ch then lstrip s' else s
  end.

Definition strip (s : pystr) : pystr := rev (lstrip (rev (lstrip s))).

(** [int(s)] on a string: surrounding whitespace, an optional sign, then
    the digits.  More digits than the interpreter's limit raise, the limit
    being looked at above 640 digits only and a limit of 0 meaning none. *)
Definition py_int (py : Interpreter) (s : pystr) : result Z :=
  let s := strip s in
  let (negative, body) :=
    match s with
    | ch :: s' =>
        if (ch =? minus_sign)%N then (true, s')
        else if (ch =? plus_sign)%N then (false, s')
             else (false, s)
    | [] => (false, s)
    end in
  match body with
  | [] => Raise ValueError
  | ch :: body' =>
      match digit_value py ch with
      | None => Raise ValueError
      | Some d =>
          match int_digits py body' (Z.of_N d) 1 false with
          | None => Raise ValueError
          | Some (v, n) =>
              let too_long :=
                match int_max_str_digits py with
                | Some limit => ((640 <? n) && (0 <? limit) && (limit <? n))%nat
                | None => false
                end in
              if too_long then Raise ValueError
              else Ok (if negative then (- v)%Z else v)
          end
      end
  end.

(** [[int(r) for r in respostas_str]] *)
Fixpoint int_each (py : Interpreter) (respostas_str : list pystr)
  : result (list Z) :=
  match respostas_str with
  | [] => Ok []
  | r :: rest =>
      v <- py_int py r ;;
      vs <- int_each py rest ;;
      Ok (v :: vs)
  end.

(** Lines 138-150: the responses read from the text area; [None] when the
    text is empty (the branch is not entered) and when a token is not an
    integer (the [ValueError] is caught and the responses are reset). *)
Definition ler_respostas (py : Interpreter) (respostas_input : pystr)
  : option (list Z) :=
  match respostas_input with
  | [] => None
  | _ :: _ =>
      let respostas_str := split (replace_commas respostas_input) in
      match int_each py respostas_str with
      | Ok respostas => Some respostas
      | Raise _ => None
      end
  end.

(** What stands between two responses: a comma or whitespace. *)
Definition separator (ch : N) : Prop := ch = comma \/ isspace ch = true.

(** The text of a list of responses 0 or 1, with [sep] between them. *)
Definition digit_char (r : Z) : N := (48 + Z.to_N r)%N.

Fixpoint escrever (sep : pystr) (respostas : list Z) : pystr :=
  match respostas with
  | [] => []
  | [r] => [digit_char r]
  | r :: rest => digit_char r :: sep ++ escrever sep rest
  end.

(** The value of a sequence of decimal digits. *)
Definition decimal (ds : list N) : Z :=
  fold_left (fun acc d => (10 * acc + Z.of_N d)%Z) ds 0%Z.

(** An interpreter that knows no digit outside ASCII and limits [int] to
    4300 digits. *)
Definition cpython : Interpreter :=
  {| unicode_decimal := fun _ => None; int_max_str_digits := Some 4300%nat |}.

(** A file that names the first and the last parameter by their long names
    and carries a column the loader does not ask for. *)
Definition frame_nomes_longos : Frame R :=
  [("discriminacao", [1.5; 1.2]); ("b", [-2; 0]); ("obs", [7; 8]);
   ("acerto_casual", [0.2; 0.2])]%string.

(** A file that carries the discrimination under both names. *)
Definition frame_nomes_duplos : Frame R :=
  [("a", [1.5; 1.2]); ("discriminacao", [1; 1]); ("b", [-2; 0]);
   ("c", [0.2; 0.2])]%string.

(** * The engine in binary64

    The same source, computed as numpy computes it: on IEEE 754 doubles,
    rounding to nearest with ties to even, with overflow to an infinity and
    with NaN.  A decimal literal denotes the nearest double, as it does in
    Python.  The ability is a numpy double, which is what the optimiser
    passes: nothing raises, where a Python float would raise
    [OverflowError] in [theta**2]. *)

#[local] Set Warnings "-inexact-float".

(** The classes of a double, read off its sign, mantissa and exponent
    ([Prim2SF]): finite, zero, NaN, not negative, and finite with an
    exponent of at most [E], that is of magnitude below [2^(E + 53)]. *)
Definition SFfinite (v : spec_float) : bool :=
  match v with
  | S754_zero _ | S754_finite _ _ _ => true
  | _ => false
  end.

Definition SFzero (v : spec_float) : bool :=
  match v with
  | S754_zero _ => true
  | _ => false
  end.

Definition SFnan (v : spec_float) : bool :=
  match v with
  | S754_nan => true
  | _ => false
  end.


Definition SFexp_le (E : Z) (v : spec_float) : Prop :=
  match v with
  | S754_zero _ => True
  | S754_finite _ _ e => (e <= E)%Z
  | _ => False
  end.



(** The sums of the elements of an array, added in any order and with any
    grouping, from accumulators that start at a zero. *)
Inductive summation : list float -> float -> Prop :=
| summation_empty (z : float) : is_zero z = true -> summation [] z
| summation_single (v : float) : summation [v] v
| summation_add (l1 l2 : list float) (v1 v2 : float) :
    summation l1 v1 -> summation l2 v2 ->
    summation (l1 ++ l2) (v1 + v2)%float
| summation_perm (l l' : list float) (v : float) :
    Permutation l l' -> summation l v -> summation l' v.

Module binary64.

(** [np.exp], [np.log] and [np.sum] on doubles.  The values of the first
    two are those of the mathematical library numpy is built on and differ
    between platforms in the last place; the order in which the third adds
    (from left to right on short arrays, in blocks on long ones) differs
    between versions.  They are an interface.  Taken for granted are the
    values IEEE 754 fixes, [exp(+0) = exp(-0) = 1] and [exp(-inf) = +0];
    that [exp] of a double that is not NaN is not negative; that [log] of a
    positive finite double is of magnitude below 1024 (it is below 745);
    and that [sum] adds the elements, in some order. *)
Record Numpy : Type := {
  exp : float -> float;
  log : float -> float;
  sum : list float -> float;
  exp_zero : exp 0%float = 1%float;
  exp_neg_zero : exp neg_zero = 1%float;
  exp_neg_infinity : exp neg_infinity = 0%float;
  exp_nonneg : forall v, is_nan v = false -> (0 <=? exp v)%float = true;
  log_finite : forall v,
      (0 <? v)%float = true -> is_finite v = true ->
      (abs (log v) <? 1024)%float = true;
  sum_order : forall l, summation l (sum l)
}.

(** A library that knows the fixed values and little else: its exponential
    is 0 below zero and infinite above, its logarithm is 0, and it adds
    from left to right. *)
Definition special_values : Numpy.
Proof.
  refine {| exp := fun v => if is_zero v then 1%float
                            else if is_nan v then v
                                 else if (v <? 0)%float then 0%float
                                      else infinity;
            log := fun v => 0%float;
            sum := fun l => fold_left PrimFloat.add l 0%float |};
    try reflexivity.
  - intros v H. rewrite H. destruct (is_zero v); [reflexivity|].
    destruct (v <? 0)%float; reflexivity.
  - intros l.
    assert (H : forall (l0 : list float) (acc : float),
               summation l0 acc ->
               summation (l0 ++ l) (fold_left PrimFloat.add l acc)).
    { induction l as [|v l IH]; intros l0 acc Hacc; simpl.
      - now rewrite app_nil_r.
      - replace (l0 ++ v :: l) with ((l0 ++ [v]) ++ l)
          by (now rewrite <- app_assoc).
        apply IH. apply summation_add; [exact Hacc|apply summation_single]. }
    apply (H [] 0%float). now apply summation_empty.
Defined.

(** An integer of the response array, converted to a double. *)
Definition of_int (z : Z) : float :=
  SF2Prim (binary_normalize prec emax z 0 false).

(** [np.clip(v, lo, hi)] on doubles is [min(max(v, lo), hi)], where [max]
    and [min] return their first argument when it is NaN and compare
    otherwise. *)
Definition maximum (u v : float) : float :=
  if is_nan u then u else if (v <? u)%float then u else v.

Definition minimum (u v : float) : float :=
  if is_nan u then u else if (u <? v)%float then u else v.

Definition clip (v lo hi : float) : float := minimum (maximum v lo) hi.

Record TRIEngine : Type := {
  mean_scale : float;
  std_scale : float
}.

Definition __init__ (mean std : option float) : TRIEngine :=
  {| mean_scale := match mean with Some m => m | None => 500%float end;
     std_scale := match std with Some s => s | None => 100%float end |}.

Section Engine.

Variable numpy : Numpy.

Definition logistic_3pl (self : TRIEngine) (theta a b c : float) : float :=
  (c + (1 - c) / (1 + exp numpy (- a * (theta - b))))%float.

Definition logistic_3pl_arr (self : TRIEngine) (theta : float)
           (a b c : list float) : result (list float) :=
  e <- np.broadcast PrimFloat.mul (map PrimFloat.opp a)
                    (map (fun v => theta - v)%float b) ;;
  q <- np.broadcast PrimFloat.div (map (fun v => 1 - v)%float c)
                    (map (fun v => 1 + exp numpy v)%float e) ;;
  np.broadcast PrimFloat.add c q.

Definition log_posterior (self : TRIEngine) (theta : float)
           (responses : list Z) (params_a params_b params_c : list float)
  : result float :=
  p <- logistic_3pl_arr self theta params_a params_b params_c ;;
  let p := map (fun v => clip v 1e-10 (1 - 1e-10))%float p in
  t1 <- np.broadcast (fun r l => of_int r * l)%float responses
                     (map (log numpy) p) ;;
  t0 <- np.broadcast (fun r l => of_int r * l)%float
                     (map (fun r => (1 - r)%Z) responses)
                     (map (fun v => log numpy (1 - v))%float p) ;;
  t <- np.broadcast PrimFloat.add t1 t0 ;;
  let log_l := sum numpy t in
  let log_prior := (- 0.5 * (theta * theta))%float in
  Ok (log_l + log_prior)%float.

Definition to_enem_score (self : TRIEngine) (theta : float) : float :=
  (mean_scale self + (std_scale self * theta))%float.

End Engine.

End binary64.



(** * Calls and the state they leave behind

    A Python call can depend on more than its arguments.  The state this
    program keeps outside its objects is numpy's global random generator,
    which the data loader seeds and draws from.  A call is here a function
    of the generator's state that returns with the state it leaves. *)
Section Calls.

Variable G : Generator.

(** [scipy.optimize.minimize] as a call: free to draw from the generator,
    as a stochastic optimiser does. *)
Variable minimize :
  (R -> result R) -> R -> rng G -> result OptimizeResult * rng G.

Definition estimate_theta_call (self : TRIEngine) (responses : list Z)
           (params_a params_b params_c : list R) (st : rng G)
  : result R * rng G :=
  let objective := objective self responses params_a params_b params_c in
  let initial_theta := 0.0 in
  let (result, st) := minimize objective initial_theta st in
  (res <- result ;;
   if success res
   then match nth_error (x res) 0 with
        | Some v => Ok v
        | None => Raise IndexError
        end
   else Ok initial_theta,
   st).

End Calls.


(** An optimiser that starts from a random point, and reports it. *)
Definition minimize_random_start (G : Generator) (f : R -> result R)
           (x0 : R) (st : rng G) : result OptimizeResult * rng G :=
  let (u, st) := random G st in
  (Ok {| x := [u]; success := true |}, st).

(** A generator whose draws follow its counter. *)
Definition counting_generator : Generator :=
  {| rng := nat;
     seeded := fun s => Z.to_nat s;
     normal := fun mu sigma n st => (repeat mu n, (st + n)%nat);
     uniform := fun lo hi n st => (repeat lo n, (st + n)%nat);
     random := fun st => (1 - / INR (S (S st)), S st);
     randint := fun lo hi n st => (repeat lo n, (st + n)%nat) |}.

(** * Properties *)

(** ** Arrays *)

Lemma broadcast_same_shape {A B C : Type} (f : A -> B -> C)
      (u : list A) (v : list B) :
  length u = length v -> np.broadcast f u v = Ok (np.zip_with f u v).
Proof.
  intros H. unfold np.broadcast. rewrite H, Nat.eqb_refl. reflexivity.
Qed.

Lemma length_zip_with {A B C : Type} (f : A -> B -> C)
      (u : list A) (v : list B) :
  length u = length v -> length (np.zip_with f u v) = length u.
Proof.
  intros H. unfold np.zip_with. rewrite length_map, length_combine. lia.
Qed.

Lemma nth_zip_with {A B C : Type} (f : A -> B -> C)
      (u : list A) (v : list B) (i : nat) (du : A) (dv : B) (d : C) :
  length u = length v -> (i < length u)%nat ->
  nth i (np.zip_with f u v) d = f (nth i u du) (nth i v dv).
Proof.
  unfold np.zip_with. revert v i.
  induction u as [|u0 u IH]; intros [|v0 v] i Hlen Hi; simpl in *;
    try lia; try discriminate.
  destruct i as [|i]; [reflexivity|].
  apply IH; lia.
Qed.

Lemma nth_map_in {A B : Type} (g : A -> B) (l : list A) (i : nat)
      (d : B) (d' : A) :
  (i < length l)%nat -> nth i (map g l) d = g (nth i l d').
Proof.
  revert i. induction l as [|a l IH]; intros i Hi; simpl in *; [lia|].
  destruct i as [|i]; [reflexivity|]. apply IH. lia.
Qed.

Lemma length_map3 {A B C D : Type} (f : A -> B -> C -> D)
      (a : list A) (b : list B) (c : list C) :
  length a = length b -> length b = length c ->
  length (map3 f a b c) = length a.
Proof.
  revert b c. induction a as [|a0 a IH]; intros [|b0 b] [|c0 c] H1 H2;
    simpl in *; try discriminate; [reflexivity|].
  f_equal. apply IH; lia.
Qed.

Lemma nth_map3 {A B C D : Type} (f : A -> B -> C -> D)
      (a : list A) (b : list B) (c : list C) (i : nat)
      (da : A) (db : B) (dc : C) (d : D) :
  length a = length b -> length b = length c -> (i < length a)%nat ->
  nth i (map3 f a b c) d = f (nth i a da) (nth i b db) (nth i c dc).
Proof.
  revert b c i. induction a as [|a0 a IH]; intros [|b0 b] [|c0 c] i H1 H2 Hi;
    simpl in *; try discriminate; try lia.
  destruct i as [|i]; [reflexivity|]. apply IH; lia.
Qed.

(** On item-parameter arrays of one length the vectorised curve returns,
    item by item, the scalar curve. *)
Lemma logistic_3pl_arr_eq (self : TRIEngine) (theta : R) (a b c : list R) :
  length a = length b -> length b = length c ->
  logistic_3pl_arr self theta a b c
  = Ok (map3 (logistic_3pl self theta) a b c).
Proof.
  intros Hab Hbc. unfold logistic_3pl_arr.
  rewrite broadcast_same_shape by (rewrite !length_map; exact Hab).
  cbn [bind].
  rewrite broadcast_same_shape
    by (unfold np.exp; rewrite !length_map, length_zip_with;
        rewrite !length_map; lia).
  cbn [bind].
  rewrite broadcast_same_shape
    by (rewrite length_zip_with; unfold np.exp;
        rewrite !length_map; [lia|rewrite length_zip_with];
        rewrite !length_map; lia).
  f_equal. unfold np.zip_with, np.exp.
  revert b c Hab Hbc.
  induction a as [|a0 a IH]; intros [|b0 b] [|c0 c] Hab Hbc; simpl in *;
    try discriminate; [reflexivity|].
  f_equal. apply IH; lia.
Qed.

(** ** Doubles *)

Lemma SFcompare_finite_refl (s : bool) (m : positive) (e : Z) :
  SFcompare (S754_finite s m e) (S754_finite s m e) = Some Eq.
Proof.
  cbn. rewrite Z.compare_refl, (Pos.compare_cont_refl m Eq). now destruct s.
Qed.

Lemma is_finite_spec (v : float) : is_finite v = SFfinite (Prim2SF v).
Proof.
  unfold is_finite, is_nan, is_infinity.
  rewrite !FloatAxioms.eqb_spec, abs_spec.
  change (Prim2SF infinity) with (S754_infinity false).
  destruct (Prim2SF v) as [s|s| |s m e]; cbn -[SFcompare]; try reflexivity.
  - now destruct s.
  - unfold SFeqb. rewrite SFcompare_finite_refl. reflexivity.
Qed.

Lemma is_zero_spec (v : float) : is_zero v = SFzero (Prim2SF v).
Proof.
  unfold is_zero. rewrite FloatAxioms.eqb_spec.
  change (Prim2SF zero) with (S754_zero false).
  destruct (Prim2SF v) as [s|s| |s m e]; cbn; try reflexivity;
    now destruct s.
Qed.

Lemma is_nan_spec (v : float) : is_nan v = SFnan (Prim2SF v).
Proof.
  unfold is_nan. rewrite FloatAxioms.eqb_spec.
  destruct (Prim2SF v) as [s|s| |s m e]; cbn -[SFcompare]; try reflexivity.
  - now destruct s.
  - unfold SFeqb. rewrite SFcompare_finite_refl. reflexivity.
Qed.

(** There are two zeros. *)
Lemma is_zero_cases (v : float) :
  is_zero v = true -> v = 0%float \/ v = neg_zero.
Proof.
  rewrite is_zero_spec. intros H.
  destruct (Prim2SF v) as [s|s| |s m e] eqn:E; try discriminate.
  rewrite <- (SF2Prim_Prim2SF v), E. destruct s; [right|left]; reflexivity.
Qed.

(** A finite double minus itself is [+0], exactly. *)
Lemma sub_diag (v : float) : is_finite v = true -> (v - v)%float = 0%float.
Proof.
  rewrite is_finite_spec. intros H. apply Prim2SF_inj. rewrite sub_spec.
  change (Prim2SF 0) with (S754_zero false).
  destruct (Prim2SF v) as [s|s| |s m e]; try discriminate.
  - now destruct s.
  - unfold SF64sub, SFsub. rewrite Z.sub_diag. reflexivity.
Qed.

Lemma is_zero_opp (v : float) : is_zero v = true -> is_zero (- v) = true.
Proof.
  rewrite !is_zero_spec, opp_spec. now destruct (Prim2SF v).
Qed.

Lemma is_finite_opp (v : float) : is_finite (- v) = is_finite v.
Proof.
  rewrite !is_finite_spec, opp_spec. now destruct (Prim2SF v).
Qed.

(** A zero times a finite double is a zero; a zero times an infinity is
    NaN. *)
Lemma is_zero_mul (u v : float) :
  (is_zero u = true /\ is_finite v = true)
  \/ (is_finite u = true /\ is_zero v = true) ->
  is_zero (u * v) = true.
Proof.
  rewrite !is_zero_spec, !is_finite_spec, mul_spec.
  destruct (Prim2SF u), (Prim2SF v); cbn; intuition discriminate.
Qed.

Lemma exp_at_zero (numpy : binary64.Numpy) (z : float) :
  is_zero z = true -> binary64.exp numpy z = 1%float.
Proof.
  intros H. destruct (is_zero_cases z H) as [-> | ->].
  - apply binary64.exp_zero.
  - apply binary64.exp_neg_zero.
Qed.


(** Adding a zero to a double that is not NaN gives a double equal to it
    (for [==]: the sum of [-0] and [+0] is [+0]). *)
Lemma add_zero_eqb (u z : float) :
  is_nan u = false -> is_zero z = true -> (u + z =? u)%float = true.
Proof.
  rewrite is_nan_spec, is_zero_spec, FloatAxioms.eqb_spec, add_spec.
  destruct (Prim2SF z) as [sz|sz| |sz mz ez]; try discriminate.
  destruct (Prim2SF u) as [s|s| |s m e]; try discriminate; intros _ _.
  - now destruct s, sz.
  - now destruct s.
  - unfold SF64add, SFadd, SFeqb. rewrite SFcompare_finite_refl.
    reflexivity.
Qed.




(** The curve in binary64 where the exponent is a zero. *)
Lemma logistic_3pl_zero_exponent (numpy : binary64.Numpy)
      (self : binary64.TRIEngine) (theta a b c : float) :
  is_zero (- a * (theta - b)) = true ->
  binary64.logistic_3pl numpy self theta a b c = (c + (1 - c) / 2)%float.
Proof.
  intros H. unfold binary64.logistic_3pl. now rewrite exp_at_zero.
Qed.

(** ** Rounding without overflow

    A finite double is [m * 2^e] with a mantissa [m] of at most 53 binary
    digits.  Products and sums are rounded to 53 digits; they stay finite as
    long as the exponents leave room. *)

Section Rounding.

Local Open Scope Z_scope.

(** The number of binary digits of a mantissa. *)
Lemma digits2_pos_size (p : positive) : digits2_pos p = Pos.size p.
Proof. induction p; simpl; congruence. Qed.

Lemma Zdigits2_log2 (m : Z) : 0 < m -> Zdigits2 m = Z.log2 m + 1.
Proof.
  destruct m as [|p|p]; try lia. intros _. simpl.
  rewrite digits2_pos_size. destruct p; simpl; lia.
Qed.

Lemma Zdigits2_nonneg (m : Z) : 0 <= Zdigits2 m.
Proof. destruct m; simpl; lia. Qed.

Lemma Zdigits2_le (a b : Z) : 0 <= a <= b -> Zdigits2 a <= Zdigits2 b.
Proof.
  intros [Ha Hab]. destruct (Z.eq_dec a 0) as [->|Hn].
  - apply Zdigits2_nonneg.
  - rewrite !Zdigits2_log2 by lia.
    pose proof (Z.log2_le_mono a b Hab). lia.
Qed.

Lemma Zdigits2_succ (a : Z) : 0 <= a -> Zdigits2 (a + 1) <= Zdigits2 a + 1.
Proof.
  intros Ha. destruct (Z.eq_dec a 0) as [->|Hn]; [simpl; lia|].
  rewrite !Zdigits2_log2 by lia.
  pose proof (Z.log2_succ_le a). unfold Z.succ in *. lia.
Qed.

Lemma Zdigits2_mul (a b : Z) :
  0 < a -> 0 < b -> Zdigits2 (a * b) <= Zdigits2 a + Zdigits2 b.
Proof.
  intros Ha Hb. rewrite !Zdigits2_log2 by lia.
  pose proof (Z.log2_mul_above a b ltac:(lia) ltac:(lia)). lia.
Qed.

Lemma Zdigits2_double (a : Z) : 0 < a -> Zdigits2 (2 * a) = Zdigits2 a + 1.
Proof.
  intros Ha. rewrite !Zdigits2_log2 by lia.
  rewrite Z.log2_double by lia. lia.
Qed.

Lemma Zdigits2_add (a b : Z) :
  0 <= a -> 0 <= b ->
  Zdigits2 (a + b) <= Z.max (Zdigits2 a) (Zdigits2 b) + 1.
Proof.
  intros Ha Hb.
  destruct (Z.eq_dec (Z.max a b) 0) as [H0|Hn].
  - assert (a = 0) by lia. assert (b = 0) by lia. subst. simpl. lia.
  - assert (H : Zdigits2 (a + b) <= Zdigits2 (2 * Z.max a b))
      by (apply Zdigits2_le; lia).
    rewrite Zdigits2_double in H by lia.
    destruct (Z.max_spec a b) as [[Hab E]|[Hab E]]; rewrite E in H.
    + pose proof (Zdigits2_le a b ltac:(lia)). lia.
    + pose proof (Zdigits2_le b a ltac:(lia)). lia.
Qed.

(** Shifting a mantissa right by one place takes one digit away. *)
Lemma shr_1_digits (mrs : shr_record) :
  0 <= shr_m mrs ->
  0 <= shr_m (shr_1 mrs)
  /\ Zdigits2 (shr_m (shr_1 mrs)) = Z.max 0 (Zdigits2 (shr_m mrs) - 1).
Proof.
  destruct mrs as [m r s]. cbn [shr_m]. intros Hm.
  destruct m as [|p|p]; try lia; [cbn; lia|].
  destruct p; cbn [shr_1 shr_m Zdigits2 digits2_pos];
    rewrite ?Pos2Z.inj_succ; lia.
Qed.

Lemma iter_shr_1_digits (p : positive) (mrs : shr_record) :
  0 <= shr_m mrs ->
  0 <= shr_m (SpecFloat.iter_pos shr_1 p mrs)
  /\ Zdigits2 (shr_m (SpecFloat.iter_pos shr_1 p mrs))
     = Z.max 0 (Zdigits2 (shr_m mrs) - Zpos p).
Proof.
  revert mrs. induction p as [p IH|p IH|]; intros mrs Hm; simpl.
  - destruct (shr_1_digits mrs Hm) as [H1 E1].
    destruct (IH _ H1) as [H2 E2]. destruct (IH _ H2) as [H3 E3].
    split; [exact H3|]. rewrite E3, E2, E1. lia.
  - destruct (IH _ Hm) as [H2 E2]. destruct (IH _ H2) as [H3 E3].
    split; [exact H3|]. rewrite E3, E2. lia.
  - apply shr_1_digits. exact Hm.
Qed.

Lemma shr_m_of_loc (m : Z) (l : location) : shr_m (shr_record_of_loc m l) = m.
Proof. destruct l as [|[ | | ]]; reflexivity. Qed.

(** The shift that brings a mantissa to the format: the exponent it ends
    at and the digits it keeps. *)
Lemma shr_fexp_digits (m e : Z) (l : location) :
  0 <= m ->
  let r := shr_fexp prec emax m e l in
  0 <= shr_m (fst r)
  /\ snd r = Z.max e (fexp prec emax (Zdigits2 m + e))
  /\ Zdigits2 (shr_m (fst r)) = Z.max 0 (Zdigits2 m - (snd r - e)).
Proof.
  intros Hm. cbv zeta. unfold shr_fexp, shr.
  set (f := fexp prec emax (Zdigits2 m + e)).
  destruct (f - e) as [|p|p] eqn:E; cbn [fst snd].
  - rewrite shr_m_of_loc. pose proof (Zdigits2_nonneg m). lia.
  - destruct (iter_shr_1_digits p (shr_record_of_loc m l)) as [H1 H2];
      [rewrite shr_m_of_loc; exact Hm|].
    rewrite shr_m_of_loc in H2. split; [exact H1|]. rewrite H2. lia.
  - rewrite shr_m_of_loc. pose proof (Zdigits2_nonneg m). lia.
Qed.

(** Rounding to nearest adds at most one to the mantissa. *)
Lemma round_nearest_even_bounds (m : Z) (l : location) :
  m <= round_nearest_even m l <= m + 1.
Proof.
  unfold round_nearest_even. destruct l as [|[ | | ]]; try lia.
  destruct (Z.even m); lia.
Qed.

(** Rounding does not overflow when the value is below [2^1023]: the
    outcome is a zero or a finite double, whose exponent is bounded. *)
Lemma binary_round_aux_finite (s : bool) (mx ex : Z) (lx : location) :
  0 <= mx -> ex <= emax - prec -> Zdigits2 mx + ex <= emax - 1 ->
  SFexp_le (Z.max (Z.max ex (-1074)) (Zdigits2 mx + ex + 1 - prec))
           (binary_round_aux prec emax s mx ex lx).
Proof.
  intros Hm He Hd. unfold binary_round_aux.
  pose proof (shr_fexp_digits mx ex lx Hm) as H1. cbv zeta in H1.
  destruct (shr_fexp prec emax mx ex lx) as [mrs1 e1]. cbn [fst snd] in H1.
  destruct H1 as [Hp1 [He1 Hd1]].
  pose proof (round_nearest_even_bounds (shr_m mrs1) (loc_of_shr_record mrs1))
    as Hr.
  set (m1 := round_nearest_even (shr_m mrs1) (loc_of_shr_record mrs1)) in *.
  assert (Hm1 : 0 <= m1) by lia.
  assert (Hdm1 : Zdigits2 m1 <= Zdigits2 (shr_m mrs1) + 1).
  { etransitivity; [apply (Zdigits2_le m1 (shr_m mrs1 + 1)); lia|].
    apply Zdigits2_succ. exact Hp1. }
  pose proof (shr_fexp_digits m1 e1 loc_Exact Hm1) as H2. cbv zeta in H2.
  destruct (shr_fexp prec emax m1 e1 loc_Exact) as [mrs2 e2].
  cbn [fst snd] in H2. destruct H2 as [Hp2 [He2 Hd2]].
  unfold fexp, SpecFloat.emin, prec, emax in *.
  destruct (shr_m mrs2) as [|p|p] eqn:E; [exact I| |lia].
  destruct (Z.leb_spec e2 (1024 - 53)); cbn; lia.
Qed.

(** The mantissa and the exponent of a finite double. *)
Lemma Prim2SF_canonical (v : float) (s : bool) (m : positive) (e : Z) :
  Prim2SF v = S754_finite s m e ->
  Zdigits2 (Zpos m) <= 53 /\ -1074 <= e <= 971.
Proof.
  intros E. pose proof (Prim2SF_valid v) as H. rewrite E in H.
  unfold SpecFloat.valid_binary, bounded, canonical_mantissa in H.
  apply andb_true_iff in H. destruct H as [H1 H2].
  apply Z.eqb_eq in H1. apply Z.leb_le in H2.
  unfold fexp, SpecFloat.emin, prec, emax in *. cbn [Zdigits2]. lia.
Qed.

Lemma SFexp_le_weaken (E E' : Z) (v : spec_float) :
  E <= E' -> SFexp_le E v -> SFexp_le E' v.
Proof. destruct v; simpl; try tauto. lia. Qed.

(** The product of two finite doubles is finite when their exponents add
    up to at most 917, that is when the product is below [2^1023]. *)
Lemma mul_exp_le (u v : float) (E1 E2 : Z) :
  SFexp_le E1 (Prim2SF u) -> SFexp_le E2 (Prim2SF v) ->
  E1 + E2 <= 917 ->
  SFexp_le (Z.max (E1 + E2 + 54) (-1074)) (Prim2SF (u * v)).
Proof.
  intros Hu Hv HE. rewrite mul_spec. unfold SF64mul, SFmul.
  destruct (Prim2SF u) as [s1|s1| |s1 m1 e1] eqn:Eu; try contradiction;
    destruct (Prim2SF v) as [s2|s2| |s2 m2 e2] eqn:Ev; try contradiction;
    try exact I.
  simpl in Hu, Hv.
  destruct (Prim2SF_canonical u _ _ _ Eu) as [Hd1 He1].
  destruct (Prim2SF_canonical v _ _ _ Ev) as [Hd2 He2].
  pose proof (Zdigits2_mul (Zpos m1) (Zpos m2) ltac:(lia) ltac:(lia)) as Hd.
  change (Zpos m1 * Zpos m2) with (Zpos (m1 * m2)) in Hd.
  eapply SFexp_le_weaken;
    [|apply binary_round_aux_finite; unfold prec, emax; lia].
  unfold prec. lia.
Qed.

Lemma digits2_pos_iter_xO (m d : positive) :
  Zpos (digits2_pos (Pos.iter xO m d)) = Zpos (digits2_pos m) + Zpos d.
Proof.
  induction d as [|d IH] using Pos.peano_ind.
  - simpl. lia.
  - rewrite Pos.iter_succ. cbn [digits2_pos]. lia.
Qed.

(** Aligning a mantissa to a lower exponent keeps its value. *)
Lemma shl_align_spec (mx : positive) (ex ex' : Z) :
  let r := shl_align mx ex ex' in
  snd r = Z.min ex ex'
  /\ Zdigits2 (Zpos (fst r)) + snd r = Zdigits2 (Zpos mx) + ex.
Proof.
  cbv zeta. unfold shl_align.
  destruct (ex' - ex) as [|d|d] eqn:E; cbn [fst snd Zdigits2];
    rewrite ?digits2_pos_iter_xO; lia.
Qed.

Lemma binary_round_finite (s : bool) (m : positive) (e : Z) :
  e <= 971 -> Zdigits2 (Zpos m) + e <= 1023 ->
  SFexp_le (Z.max (Z.max e (-1074)) (Zdigits2 (Zpos m) + e - 52))
           (binary_round prec emax s m e).
Proof.
  intros He Hd. unfold binary_round.
  pose proof (shl_align_spec m e (fexp prec emax (Zpos (digits2_pos m) + e)))
    as H. cbv zeta in H.
  destruct (shl_align m e _) as [mz ez]. cbn [fst snd] in H.
  destruct H as [H1 H2].
  eapply SFexp_le_weaken;
    [|apply binary_round_aux_finite; unfold prec, emax; lia].
  unfold prec. lia.
Qed.

(** The sum of two finite doubles is finite when their exponents are at
    most 969, that is when both are below [2^1022]. *)
Lemma add_exp_le (u v : float) (E1 E2 : Z) :
  SFexp_le E1 (Prim2SF u) -> SFexp_le E2 (Prim2SF v) ->
  Z.max E1 E2 <= 969 ->
  SFexp_le (Z.max (Z.max E1 E2 + 2) (-1074)) (Prim2SF (u + v)).
Proof.
  intros Hu Hv HE. rewrite add_spec. unfold SF64add, SFadd.
  destruct (Prim2SF u) as [s1|s1| |s1 m1 e1] eqn:Eu; try contradiction;
    destruct (Prim2SF v) as [s2|s2| |s2 m2 e2] eqn:Ev; try contradiction.
  - now destruct s1, s2.
  - simpl in *. lia.
  - simpl in *. lia.
  - simpl in Hu, Hv.
    destruct (Prim2SF_canonical u _ _ _ Eu) as [Hd1 He1].
    destruct (Prim2SF_canonical v _ _ _ Ev) as [Hd2 He2].
    pose proof (shl_align_spec m1 e1 (Z.min e1 e2)) as A1.
    pose proof (shl_align_spec m2 e2 (Z.min e1 e2)) as A2.
    cbv zeta in A1, A2.
    destruct (shl_align m1 e1 (Z.min e1 e2)) as [a ea].
    destruct (shl_align m2 e2 (Z.min e1 e2)) as [b eb].
    cbn [fst snd] in *. destruct A1 as [A1 A1'], A2 as [A2 A2'].
    pose proof (Zdigits2_add (Zpos a) (Zpos b) ltac:(lia) ltac:(lia)) as Hs.
    set (d := cond_Zopp s1 (Zpos a) + cond_Zopp s2 (Zpos b)).
    assert (Hd : Z.abs d <= Zpos a + Zpos b)
      by (unfold d, cond_Zopp; destruct s1, s2; lia).
    assert (Hdd : Zdigits2 (Z.abs d) <= Zdigits2 (Zpos a + Zpos b))
      by (apply Zdigits2_le; lia).
    unfold binary_normalize.
    destruct d as [|p|p] eqn:Ed; [exact I| |];
      (eapply SFexp_le_weaken; [|apply binary_round_finite]);
      cbn [Z.abs] in Hdd;
      change (IntDef.Z.min e1 e2) with (Z.min e1 e2); lia.
Qed.

Lemma SFexp_le_finite (E : Z) (v : spec_float) :
  SFexp_le E v -> SFfinite v = true.
Proof. destruct v; simpl; tauto. Qed.

(** A double of magnitude at most a positive finite one is finite, with
    an exponent that is not above. *)
Lemma abs_leb_exp_le (v bound : float) (m0 : positive) (e0 : Z) :
  Prim2SF bound = S754_finite false m0 e0 ->
  (abs v <=? bound)%float = true -> SFexp_le e0 (Prim2SF v).
Proof.
  intros Eb. rewrite leb_spec, abs_spec, Eb. unfold SFleb.
  destruct (Prim2SF v) as [s|s| |s m e]; cbn; try discriminate;
    [tauto|].
  destruct (Z.compare_spec e e0); try discriminate; lia.
Qed.






















(** With the default constants the score of an ability of magnitude at
    most [1e305] is a finite double. *)
Lemma to_enem_score_finite (theta : float) :
  (abs theta <=? 1e305)%float = true ->
  is_finite (binary64.to_enem_score (binary64.__init__ None None) theta)
  = true.
Proof.
  intros H. rewrite is_finite_spec.
  unfold binary64.to_enem_score. cbn [binary64.__init__ binary64.mean_scale
                                      binary64.std_scale].
  assert (exists m0, Prim2SF 1e305 = S754_finite false m0 961) as [m0 E0]
      by (eexists; reflexivity).
  pose proof (abs_leb_exp_le theta _ _ _ E0 H) as Ht.
  assert (H100 : SFexp_le (-46) (Prim2SF 100))
    by (replace (Prim2SF 100) with (S754_finite false 7036874417766400 (-46))
         by reflexivity; simpl; lia).
  assert (H500 : SFexp_le (-44) (Prim2SF 500))
    by (replace (Prim2SF 500) with (S754_finite false 8796093022208000 (-44))
         by reflexivity; simpl; lia).
  pose proof (mul_exp_le 100 theta _ _ H100 Ht ltac:(lia)) as Hm.
  pose proof (add_exp_le 500 (100 * theta) _ _ H500 Hm ltac:(lia)) as Ha.
  exact (SFexp_le_finite _ _ Ha).
Qed.


End Rounding.

(** ** The posterior on doubles *)





(** ** The probability model *)

Lemma exp_neg_pos (u : R) : 0 < 1 + exp u.
Proof. pose proof (exp_pos u). lra. Qed.

(** The part of the curve above the guessing floor. *)
Lemma logistic_3pl_above_floor (self : TRIEngine) (theta a b c : R) :
  logistic_3pl self theta a b c - c = (1 - c) / (1 + exp (- a * (theta - b))).
Proof. unfold logistic_3pl. lra. Qed.

(** The part of the curve below 1. *)
Lemma logistic_3pl_below_one (self : TRIEngine) (theta a b c : R) :
  1 - logistic_3pl self theta a b c
  = (1 - c) * (exp (- a * (theta - b)) / (1 + exp (- a * (theta - b)))).
Proof.
  unfold logistic_3pl. pose proof (exp_neg_pos (- a * (theta - b))).
  field. lra.
Qed.

(** In exact arithmetic the probability at the item's difficulty is
    [c + (1 - c) / 2], which is [(1 + c) / 2], for every [a], [b] and
    [c]. *)
Lemma logistic_3pl_at_difficulty_exact (self : TRIEngine) (a b c : R) :
  logistic_3pl self b a b c = c + (1 - c) / 2
  /\ c + (1 - c) / 2 = (1 + c) / 2.
Proof.
  unfold logistic_3pl.
  replace (- a * (b - b)) with 0 by ring.
  rewrite exp_0. split; field.
Qed.

(** In binary64 the two differ: at [c = 0.2] the program returns
    [0.6000000000000001], while [(1 + c) / 2] is [0.6]. *)
Lemma logistic_3pl_at_difficulty_rounds :
  ((1 + 0.2) / 2)%float = 0.6%float
  /\ (0.6000000000000001 =? 0.6)%float = false
  /\ forall numpy : binary64.Numpy,
      binary64.logistic_3pl numpy (binary64.__init__ None None)
                            0.7 1.5 0.7 0.2
      = 0.6000000000000001%float.
Proof.
  split; [reflexivity|]. split; [reflexivity|]. intros numpy.
  rewrite logistic_3pl_zero_exponent; reflexivity.
Qed.

(** C6. At [theta] equal to the item's difficulty the program returns the
    double [c + (1 - c) / 2], for every finite [a] and [b] and every [c]:
    [b - b] is [+0], its product with [-a] is a zero and [exp] of a zero is
    1.  In exact arithmetic that value is [(1 + c) / 2]. *)
Theorem logistic_3pl_at_difficulty :
  (forall (numpy : binary64.Numpy) (self : binary64.TRIEngine)
          (a b c : float),
      is_finite a = true -> is_finite b = true ->
      binary64.logistic_3pl numpy self b a b c = (c + (1 - c) / 2)%float)
  /\ (forall (self : TRIEngine) (a b c : R),
         logistic_3pl self b a b c = c + (1 - c) / 2
         /\ c + (1 - c) / 2 = (1 + c) / 2).
Proof.
  split.
  - intros numpy self a b c Ha Hb. apply logistic_3pl_zero_exponent.
    rewrite sub_diag by exact Hb.
    apply is_zero_mul. right.
    split; [now rewrite is_finite_opp|reflexivity].
  - exact logistic_3pl_at_difficulty_exact.
Qed.

Lemma logistic_3pl_at_difficulty_witness :
  binary64.logistic_3pl binary64.special_values (binary64.__init__ None None)
                        0.7 1.5 0.7 0.2
  = (0.2 + (1 - 0.2) / 2)%float.
Proof.
  apply (proj1 logistic_3pl_at_difficulty binary64.special_values
               (binary64.__init__ None None) 1.5%float 0.7%float 0.2%float);
    reflexivity.
Defined.

(** In exact arithmetic, with no discriminating power the probability is
    [c + (1 - c) / 2] whatever [theta] and [b] are. *)
Lemma logistic_3pl_zero_discrimination_exact (self : TRIEngine)
      (theta b c : R) :
  logistic_3pl self theta 0 b c = c + (1 - c) / 2.
Proof.
  unfold logistic_3pl.
  replace (- 0 * (theta - b)) with 0 by ring.
  rewrite exp_0. field.
Qed.

(** In binary64 the constant is not the double [(1 + c) / 2]: at [c = 0.2]
    the program returns [0.6000000000000001] for the abilities 2 and -3,
    while [(1 + c) / 2] is [0.6]. *)
Lemma logistic_3pl_zero_discrimination_rounds :
  ((1 + 0.2) / 2)%float = 0.6%float
  /\ (0.6000000000000001 =? 0.6)%float = false
  /\ forall numpy : binary64.Numpy,
      binary64.logistic_3pl numpy (binary64.__init__ None None) 2 0 1 0.2
      = 0.6000000000000001%float
      /\ binary64.logistic_3pl numpy (binary64.__init__ None None)
                               (-3) 0 1 0.2
         = 0.6000000000000001%float.
Proof.
  split; [reflexivity|]. split; [reflexivity|]. intros numpy.
  split; rewrite logistic_3pl_zero_exponent; reflexivity.
Qed.

(** C7. With no discriminating power ([a] a zero) the program returns the
    same double, [c + (1 - c) / 2], for every [theta] and [b] whose
    difference is finite: the exponent is a zero.  The call on arrays of one
    length returns (it does not raise) the array of these constants.  In
    exact arithmetic the constant is [(1 + c) / 2]. *)
Theorem logistic_3pl_zero_discrimination :
  (forall (numpy : binary64.Numpy) (self : binary64.TRIEngine)
          (theta a b c : float),
      is_zero a = true -> is_finite (theta - b) = true ->
      binary64.logistic_3pl numpy self theta a b c
      = (c + (1 - c) / 2)%float)
  /\ (forall (numpy : binary64.Numpy) (self : binary64.TRIEngine)
             (theta : float) (b c : list float),
         length b = length c ->
         Forall (fun bi => is_finite (theta - bi) = true) b ->
         binary64.logistic_3pl_arr numpy self theta
                                   (map (fun _ => 0%float) b) b c
         = Ok (map (fun ci => (ci + (1 - ci) / 2)%float) c))
  /\ (forall (self : TRIEngine) (theta b c : R),
         logistic_3pl self theta 0 b c = c + (1 - c) / 2
         /\ c + (1 - c) / 2 = (1 + c) / 2).
Proof.
  assert (Hz : forall a d : float,
             is_zero a = true -> is_finite d = true ->
             is_zero (- a * d) = true).
  { intros a d Ha Hd. apply is_zero_mul. left.
    split; [now apply is_zero_opp|exact Hd]. }
  split; [|split].
  - intros numpy self theta a b c Ha Hd.
    apply logistic_3pl_zero_exponent. now apply Hz.
  - intros numpy self theta b c Hlen Hfin.
    unfold binary64.logistic_3pl_arr.
    rewrite broadcast_same_shape by (now rewrite !length_map).
    cbn [bind].
    rewrite broadcast_same_shape
      by (rewrite !length_map, length_zip_with; rewrite !length_map; lia).
    cbn [bind].
    rewrite broadcast_same_shape
      by (rewrite length_zip_with; rewrite !length_map;
          [lia|rewrite length_zip_with]; rewrite !length_map; lia).
    f_equal. unfold np.zip_with. revert c Hlen.
    induction Hfin as [|b0 b Hb0 _ IH]; intros [|c0 c] Hlen; simpl in *;
      try discriminate; [reflexivity|].
    rewrite exp_at_zero
      by (apply is_zero_mul; left; split; [reflexivity|exact Hb0]).
    f_equal. apply IH. lia.
  - intros self theta b c. split.
    + apply logistic_3pl_zero_discrimination_exact.
    + field.
Qed.

Lemma logistic_3pl_zero_discrimination_witness :
  binary64.logistic_3pl_arr binary64.special_values
                            (binary64.__init__ None None) 0.3
                            [0; 0]%float [-1; 2]%float [0.2; 0.25]%float
  = Ok [(0.2 + (1 - 0.2) / 2)%float; (0.25 + (1 - 0.25) / 2)%float].
Proof.
  apply (proj1 (proj2 logistic_3pl_zero_discrimination)
               binary64.special_values (binary64.__init__ None None)
               0.3%float [-1; 2]%float [0.2; 0.25]%float).
  - reflexivity.
  - repeat (constructor; [reflexivity|]). constructor.
Defined.





(** ** The score transform *)

(** In binary64 the score of a finite ability can be infinite: with the
    default constants, [100 * 1e308] overflows. *)
Lemma to_enem_score_overflows :
  is_finite 1e308 = true
  /\ binary64.to_enem_score (binary64.__init__ None None) 1e308 = infinity.
Proof. split; reflexivity. Qed.

(** C8. The score is [mean_scale + std_scale * theta] with the constants
    the engine was built with, each of them 500 and 100 when it is not
    given, in both models; at [theta = 0.0] the program returns a double
    equal to [mean_scale]; in exact arithmetic the score is affine in
    [theta]; and with the default constants the score of an ability of
    magnitude at most [1e305] is a finite double. *)
Theorem to_enem_score_affine :
  (forall (m s : option R) (theta : R),
      to_enem_score (__init__ m s) theta
      = match m with Some v => v | None => 500 end
        + match s with Some v => v | None => 100 end * theta)
  /\ (forall (m s : option float) (theta : float),
         binary64.to_enem_score (binary64.__init__ m s) theta
         = (match m with Some v => v | None => 500 end
            + match s with Some v => v | None => 100 end * theta)%float)
  /\ (forall self : binary64.TRIEngine,
         is_finite (binary64.std_scale self) = true ->
         is_nan (binary64.mean_scale self) = false ->
         (binary64.to_enem_score self 0 =? binary64.mean_scale self)%float
         = true)
  /\ (forall (self : TRIEngine) (t u k : R),
         to_enem_score self (k * t + (1 - k) * u)
         = k * to_enem_score self t + (1 - k) * to_enem_score self u)
  /\ (forall theta : float,
         (abs theta <=? 1e305)%float = true ->
         is_finite (binary64.to_enem_score (binary64.__init__ None None)
                                           theta) = true).
Proof.
  split; [|split; [|split; [|split]]].
  - intros [m|] [s|] theta; reflexivity.
  - intros [m|] [s|] theta; reflexivity.
  - intros self Hs Hm. unfold binary64.to_enem_score.
    apply add_zero_eqb; [exact Hm|].
    apply is_zero_mul. right. split; [exact Hs|reflexivity].
  - intros self t u k. unfold to_enem_score. lra.
  - exact to_enem_score_finite.
Qed.

Lemma to_enem_score_affine_witness :
  (binary64.to_enem_score (binary64.__init__ None None) 0 =? 500)%float
  = true
  /\ is_finite (binary64.to_enem_score (binary64.__init__ None None) 4.5)
     = true.
Proof.
  split.
  - apply (proj1 (proj2 (proj2 to_enem_score_affine))
                 (binary64.__init__ None None)); reflexivity.
  - apply (proj2 (proj2 (proj2 (proj2 to_enem_score_affine))) 4.5%float).
    reflexivity.
Defined.

(** ** The posterior objective *)

Ltac solve_len :=
  unfold np.log, np.clip, np.exp;
  repeat (rewrite length_map
          || (rewrite length_zip_with by solve_len)
          || (rewrite length_map3 by solve_len));
  solve [lia | congruence].

Lemma big_sum_ext (n : nat) (f g : nat -> R) :
  (forall i, (i < n)%nat -> f i = g i) -> big_sum n f = big_sum n g.
Proof.
  induction n as [|n IH]; intros H; simpl; [reflexivity|].
  rewrite IH, H by (intros; try apply H; lia). reflexivity.
Qed.

Lemma big_sum_shift (n : nat) (f : nat -> R) :
  big_sum (S n) f = f O + big_sum n (fun i => f (S i)).
Proof.
  induction n as [|n IH]; [simpl; lra|].
  change (big_sum (S (S n)) f) with (big_sum (S n) f + f (S n)).
  rewrite IH. simpl. lra.
Qed.

(** [np.sum] adds the elements in index order. *)
Lemma sum_as_big_sum (l : list R) :
  np.sum l = big_sum (length l) (fun i => nth i l 0).
Proof.
  induction l as [|v l IH]; [reflexivity|].
  cbn [length]. rewrite big_sum_shift. simpl. now rewrite <- IH.
Qed.


Lemma clip1_in_range (lo hi v : R) :
  lo <= hi -> lo <= np.clip1 lo hi v <= hi.
Proof.
  intros H. unfold np.clip1. split.
  - apply Rmin_glb; [exact H|apply Rmax_r].
  - apply Rmin_l.
Qed.


(** What [clipped_p] returns on arrays of one length, item by item. *)
Lemma clipped_p_eq (self : TRIEngine) (theta : R) (a b c : list R) :
  length a = length b -> length b = length c ->
  clipped_p self theta a b c
  = Ok (np.clip (map3 (logistic_3pl self theta) a b c) 1e-10 (1 - 1e-10)).
Proof.
  intros Hab Hbc. unfold clipped_p.
  now rewrite logistic_3pl_arr_eq.
Qed.

Lemma nth_clipped (self : TRIEngine) (theta : R) (a b c : list R) (i : nat) :
  length a = length b -> length b = length c -> (i < length a)%nat ->
  nth i (np.clip (map3 (logistic_3pl self theta) a b c) 1e-10 (1 - 1e-10)) 0
  = P' self theta a b c i.
Proof.
  intros Hab Hbc Hi. unfold np.clip, P'.
  rewrite nth_map_in with (d' := 0) by solve_len.
  now rewrite nth_map3 with (da := 0) (db := 0) (dc := 0).
Qed.

(** The value [log_posterior] returns on arrays of one length. *)
Lemma log_posterior_sum (self : TRIEngine) (theta : R) (r : list Z)
      (a b c : list R) :
  length r = length a -> length a = length b -> length b = length c ->
  log_posterior self theta r a b c
  = Ok (log_posterior_formula self theta r a b c).
Proof.
  intros Hra Hab Hbc. unfold log_posterior.
  rewrite clipped_p_eq by assumption. cbn [bind].
  set (p := np.clip _ _ _).
  assert (Hp : length p = length r) by (unfold p; solve_len).
  rewrite broadcast_same_shape by solve_len. cbn [bind].
  rewrite broadcast_same_shape by solve_len. cbn [bind].
  rewrite broadcast_same_shape by solve_len. cbn [bind].
  f_equal. unfold log_posterior_formula.
  rewrite sum_as_big_sum.
  replace (length (np.zip_with _ _ _)) with (length r) by solve_len.
  match goal with
  | |- ?s + _ = ?s' - _ => replace s with s'; [lra|]
  end.
  apply big_sum_ext. intros i Hi.
  rewrite nth_zip_with with (du := 0) (dv := 0) by solve_len.
  rewrite nth_zip_with with (du := 0%Z) (dv := 0) by solve_len.
  rewrite nth_zip_with with (du := 0%Z) (dv := 0) by solve_len.
  unfold np.log.
  rewrite !nth_map_in with (d' := 0) by solve_len.
  rewrite nth_map_in with (d' := 0%Z) by solve_len.
  unfold p. rewrite nth_clipped by (try assumption; lia).
  rewrite minus_IZR. reflexivity.
Qed.

(** C2. On arrays of one length, [log_posterior] is the sum over the items
    of [r_i log P'_i + (1 - r_i) log (1 - P'_i)] minus [0.5 theta^2], with
    [P'_i] the 3PL probability of item [i] clipped to
    [[1e-10, 1 - 1e-10]]. *)
Theorem log_posterior_is_formula (self : TRIEngine) (theta : R)
        (r : list Z) (a b c : list R) :
  length r = length a -> length a = length b -> length b = length c ->
  log_posterior self theta r a b c
  = Ok (big_sum (length r)
          (fun i =>
             IZR (nth i r 0%Z)
             * ln (np.clip1 1e-10 (1 - 1e-10)
                     (logistic_3pl self theta (nth i a 0) (nth i b 0)
                                   (nth i c 0)))
             + (1 - IZR (nth i r 0%Z))
               * ln (1 - np.clip1 1e-10 (1 - 1e-10)
                       (logistic_3pl self theta (nth i a 0) (nth i b 0)
                                     (nth i c 0))))
        - 0.5 * theta ^ 2).
Proof. exact (log_posterior_sum self theta r a b c). Qed.

Lemma log_posterior_is_formula_witness :
  log_posterior (__init__ None None) 0 [1%Z; 0%Z] [1.5; 1.2] [-2; -1]
                [0.2; 0.2]
  = Ok (log_posterior_formula (__init__ None None) 0 [1%Z; 0%Z] [1.5; 1.2]
                              [-2; -1] [0.2; 0.2]).
Proof.
  apply (log_posterior_is_formula (__init__ None None) 0 [1%Z; 0%Z]
                                  [1.5; 1.2] [-2; -1] [0.2; 0.2]);
    reflexivity.
Defined.








(** ** The ability estimator *)

(** C3. Whenever the optimiser returns a result that reports failure
    ([success] is false: it did not converge), [estimate_theta] returns the
    initial value [0.0]: it raises nothing and it does not read the
    solution array of the failed run. *)
Theorem estimate_theta_fallback
        (minimize : (R -> result R) -> R -> result OptimizeResult)
        (self : TRIEngine) (responses : list Z)
        (params_a params_b params_c : list R) (res : OptimizeResult) :
  minimize (objective self responses params_a params_b params_c) 0.0 = Ok res ->
  success res = false ->
  estimate_theta minimize self responses params_a params_b params_c = Ok 0.0.
Proof.
  intros Hres Hfail. unfold estimate_theta.
  cbv zeta. rewrite Hres. cbn [bind]. now rewrite Hfail.
Qed.

Lemma estimate_theta_fallback_witness :
  estimate_theta minimize_gives_up (__init__ None None)
                 [1%Z; 0%Z] [1.5; 1.2] [-2; -1] [0.2; 0.2] = Ok 0.0.
Proof.
  apply (estimate_theta_fallback minimize_gives_up (__init__ None None)
           [1%Z; 0%Z] [1.5; 1.2] [-2; -1] [0.2; 0.2]
           {| x := [0.0]; success := false |});
    reflexivity.
Defined.

(** A run that reports success returns the first component of the
    solution. *)
Lemma estimate_theta_success
      (minimize : (R -> result R) -> R -> result OptimizeResult)
      (self : TRIEngine) (responses : list Z)
      (params_a params_b params_c : list R) (v : R) (rest : list R) :
  minimize (objective self responses params_a params_b params_c) 0.0
  = Ok {| x := v :: rest; success := true |} ->
  estimate_theta minimize self responses params_a params_b params_c = Ok v.
Proof.
  intros Hres. unfold estimate_theta. cbv zeta. now rewrite Hres.
Qed.

(** The call returns what the function returns when the optimiser is a
    function of its arguments that leaves the generator alone. *)
Lemma estimate_theta_call_pure (G : Generator)
      (minimize : (R -> result R) -> R -> result OptimizeResult)
      (self : TRIEngine) (responses : list Z)
      (params_a params_b params_c : list R) (st : rng G) :
  estimate_theta_call G (fun f x0 st => (minimize f x0, st)) self responses
                      params_a params_b params_c st
  = (estimate_theta minimize self responses params_a params_b params_c, st).
Proof. reflexivity. Qed.

(** An optimiser that draws its starting point makes the estimate follow
    the generator: two calls in a row on the same engine and the same
    arrays return different abilities. *)
Lemma estimate_theta_call_random_start :
  let call := estimate_theta_call counting_generator
                (minimize_random_start counting_generator)
                (__init__ None None) [1%Z; 0%Z] [1.5; 1.2] [-2; -1]
                [0.2; 0.2] in
  fst (call 0%nat) = Ok (1 - / 2)
  /\ fst (call (snd (call 0%nat))) = Ok (1 - / (1 + 1 + 1))
  /\ fst (call 0%nat) <> fst (call (snd (call 0%nat))).
Proof.
  cbv zeta.
  assert (H1 : fst (estimate_theta_call counting_generator
                      (minimize_random_start counting_generator)
                      (__init__ None None) [1%Z; 0%Z] [1.5; 1.2] [-2; -1]
                      [0.2; 0.2] 0%nat) = Ok (1 - / 2))
    by reflexivity.
  assert (H2 : fst (estimate_theta_call counting_generator
                      (minimize_random_start counting_generator)
                      (__init__ None None) [1%Z; 0%Z] [1.5; 1.2] [-2; -1]
                      [0.2; 0.2]
                      (snd (estimate_theta_call counting_generator
                              (minimize_random_start counting_generator)
                              (__init__ None None) [1%Z; 0%Z] [1.5; 1.2]
                              [-2; -1] [0.2; 0.2] 0%nat)))
               = Ok (1 - / (1 + 1 + 1)))
    by reflexivity.
  split; [exact H1|]. split; [exact H2|].
  rewrite H1, H2. intros H. injection H as H. lra.
Qed.



(** ** The coherence analysis *)

(** *** Sorting the indices *)

Lemma insert_by_perm (key : nat -> R) (i : nat) (l : list nat) :
  Permutation (np.insert_by key i l) (i :: l).
Proof.
  induction l as [|j l IH]; simpl; [apply Permutation_refl|].
  destruct (Rle_dec (key i) (key j)); [apply Permutation_refl|].
  eapply perm_trans; [apply perm_skip, IH|apply perm_swap].
Qed.

(** [argsort] returns a rearrangement of the indices of its argument. *)
Lemma argsort_perm (v : list R) :
  Permutation (np.argsort v) (seq 0 (length v)).
Proof.
  unfold np.argsort. induction (seq 0 (length v)) as [|i l IH]; simpl.
  - apply Permutation_refl.
  - eapply perm_trans; [apply insert_by_perm|now apply perm_skip].
Qed.

Lemma insert_by_sorted (key : nat -> R) (i : nat) (l : list nat) :
  Sorted (fun u w => key u <= key w) l ->
  Sorted (fun u w => key u <= key w) (np.insert_by key i l).
Proof.
  induction l as [|j l IH]; intros Hs; simpl.
  - repeat constructor.
  - destruct (Rle_dec (key i) (key j)) as [Hle|Hgt].
    + constructor; [exact Hs|constructor; exact Hle].
    + inversion Hs as [|? ? Hs' Hhd]; subst.
      constructor; [apply IH; exact Hs'|].
      destruct l as [|k l]; simpl.
      * constructor. lra.
      * destruct (Rle_dec (key i) (key k)); constructor; [lra|].
        inversion Hhd; subst. assumption.
Qed.

(** Along the indices [argsort] returns, the values do not decrease. *)
Lemma argsort_sorted (v : list R) :
  Sorted (fun i j => nth i v 0 <= nth j v 0) (np.argsort v).
Proof.
  unfold np.argsort. induction (seq 0 (length v)) as [|i l IH]; simpl.
  - constructor.
  - now apply insert_by_sorted.
Qed.

(** Indexing by an array of in-range indices raises nothing. *)
Lemma index_array_in_range {A : Type} (v : list A) (idx : list nat) :
  Forall (fun i => (i < length v)%nat) idx ->
  exists l, np.index_array v idx = Ok l.
Proof.
  induction 1 as [|i idx Hi _ [l IH]]; simpl.
  - now exists [].
  - destruct (nth_error v i) as [a|] eqn:E.
    + rewrite IH. cbn [bind]. now exists (a :: l).
    + apply nth_error_None in E. lia.
Qed.

Lemma index_array_argsort {A : Type} (u : list A) (v : list R) :
  length u = length v ->
  exists l, np.index_array u (np.argsort v) = Ok l.
Proof.
  intros Hlen. apply index_array_in_range.
  eapply Permutation_Forall; [apply Permutation_sym, argsort_perm|].
  apply Forall_forall. intros i Hi. apply in_seq in Hi. lia.
Qed.

Lemma index_array_argsort_le {A : Type} (u : list A) (v : list R) :
  (length v <= length u)%nat ->
  exists l, np.index_array u (np.argsort v) = Ok l.
Proof.
  intros Hlen. apply index_array_in_range.
  eapply Permutation_Forall; [apply Permutation_sym, argsort_perm|].
  apply Forall_forall. intros i Hi. apply in_seq in Hi. lia.
Qed.

(** With a response for every difficulty the reordering of lines 59-61
    raises nothing, and its outcome is not read: the analysis is the one
    without it, whether it returns or raises. *)
Lemma analyze_consistency_skip_sort_le (self : TRIEngine) (theta : R)
      (r : list Z) (b : list R) :
  (length b <= length r)%nat ->
  analyze_consistency self theta r b
  = analyze_consistency_nosort self theta r b.
Proof.
  intros Hlen. unfold analyze_consistency, analyze_consistency_nosort.
  cbv zeta.
  destruct (index_array_argsort_le r b Hlen) as [sr ->].
  destruct (index_array_argsort_le b b (Nat.le_refl _)) as [sb ->].
  reflexivity.
Qed.

(** On arrays of one length the reordering of lines 59-61 raises nothing,
    and its outcome is not read: the analysis is the one without it. *)
Lemma analyze_consistency_skip_sort (self : TRIEngine) (theta : R)
      (r : list Z) (b : list R) :
  length r = length b ->
  analyze_consistency self theta r b
  = analyze_consistency_nosort self theta r b.
Proof.
  intros Hlen. unfold analyze_consistency, analyze_consistency_nosort.
  cbv zeta.
  destruct (index_array_argsort r b Hlen) as [sr ->].
  destruct (index_array_argsort b b eq_refl) as [sb ->].
  reflexivity.
Qed.

(** *** The masked accuracy *)

Lemma select_as_filter {A : Type} (g : R -> bool) (r : list A) (b : list R) :
  np.select r (map g b)
  = map fst (filter (fun it => g (snd it)) (combine r b)).
Proof.
  revert b. induction r as [|r0 r IH]; intros [|b0 b]; simpl;
    try reflexivity.
  destruct (g b0); simpl; now rewrite IH.
Qed.

Lemma any_as_filter {A : Type} (g : R -> bool) (r : list A) (b : list R) :
  length r = length b ->
  np.any (map g b) = false <-> filter (fun it => g (snd it)) (combine r b) = [].
Proof.
  revert b. induction r as [|r0 r IH]; intros [|b0 b] Hlen; simpl in *;
    try discriminate; [tauto|].
  destruct (g b0); simpl.
  - split; discriminate.
  - apply IH. lia.
Qed.

(** The value [_check_coherence] returns on arrays of one length. *)
Lemma check_coherence_eq (self : TRIEngine) (theta : R)
      (r : list Z) (b : list R) :
  length r = length b ->
  _check_coherence self theta r b
  = Ok (let easy := easy_subset theta r b in
        match easy with
        | [] => true
        | _ :: _ => if Rlt_dec (accuracy easy) 0.5 then false else true
        end).
Proof.
  intros Hlen. unfold _check_coherence, easy_subset, np.less. cbv zeta.
  set (g := fun v : R => np.Rltb v (theta - 1.0)).
  change (fun it : Z * R => np.Rltb (snd it) (theta - 1.0))
    with (fun it : Z * R => g (snd it)).
  pose proof (any_as_filter g r b Hlen) as Hany.
  destruct (np.any (map g b)) eqn:Ea.
  - unfold np.index_mask. rewrite length_map, Hlen, Nat.eqb_refl.
    cbn [bind]. rewrite select_as_filter.
    destruct (filter _ _) as [|it easy] eqn:Ef.
    + destruct Hany as [_ Hany]. specialize (Hany eq_refl). discriminate.
    + cbv beta iota zeta. unfold accuracy, np.mean. rewrite length_map.
      destruct (Rlt_dec _ _); reflexivity.
  - destruct Hany as [Hany _]. now rewrite (Hany eq_refl).
Qed.

(** The record the analysis without the reordering returns. *)
Lemma analyze_consistency_nosort_eq (self : TRIEngine) (theta : R)
      (r : list Z) (b : list R) :
  length r = length b ->
  analyze_consistency_nosort self theta r b
  = Ok {| total_acertos := np.isum r;
          theta_estimado := round theta 4;
          coerencia := coherence_label theta r b |}.
Proof.
  intros Hlen. unfold analyze_consistency_nosort, coherence_label.
  rewrite check_coherence_eq by exact Hlen. cbn [bind]. cbv zeta.
  destruct (easy_subset theta r b) as [|it easy]; [reflexivity|].
  destruct (Rlt_dec _ _); reflexivity.
Qed.

(** The rule read case by case. *)
Lemma coherence_label_cases (theta : R) (r : list Z) (b : list R) :
  let easy := easy_subset theta r b in
  (easy = [] -> coherence_label theta r b = High)
  /\ (easy <> [] -> accuracy easy < 0.5 -> coherence_label theta r b = Low)
  /\ (easy <> [] -> 0.5 <= accuracy easy -> coherence_label theta r b = High).
Proof.
  unfold coherence_label. cbv zeta.
  destruct (easy_subset theta r b) as [|it easy].
  - repeat split; intros; congruence.
  - repeat split; intros; try discriminate;
      destruct (Rlt_dec _ _); try reflexivity; lra.
Qed.

(** On a binary response vector the accuracy is the number of correct
    responses over the number of items. *)
Lemma accuracy_counts_correct (items : list (Z * R)) :
  Forall (fun it => fst it = 0%Z \/ fst it = 1%Z) items ->
  accuracy items
  = INR (length (filter (fun it => Z.eqb (fst it) 1) items))
    / INR (length items).
Proof.
  intros Hbin. unfold accuracy. f_equal.
  induction Hbin as [|it items [H0|H1] _ IH]; [reflexivity| |].
  - cbn [map np.isum fold_right filter]. rewrite H0. cbn [Z.eqb].
    fold (np.isum (map fst items)). rewrite Z.add_0_l. exact IH.
  - cbn [map np.isum fold_right filter]. rewrite H1. cbn [Z.eqb Pos.eqb].
    fold (np.isum (map fst items)).
    cbn [length]. rewrite S_INR, plus_IZR, IH. lra.
Qed.

Ltac decide_reals :=
  repeat match goal with
         | |- context [Rlt_dec ?u ?v] => destruct (Rlt_dec u v); try lra
         end;
  try reflexivity.

(** Evaluates the rule on given numbers: first the easy subset [easy], then
    the comparison of its accuracy with 0.5. *)
Ltac eval_label easy :=
  unfold coherence_label;
  match goal with
  | |- context [easy_subset ?t ?r ?b] =>
      replace (easy_subset t r b) with easy
        by (unfold easy_subset, np.Rltb; simpl; decide_reals)
  end;
  cbv zeta; unfold accuracy; simpl; decide_reals.

(** Hits on the hard items only, against an ability of 0.5: the two easy
    items are both missed, the label is Low. *)
Example coherence_hard_hits_only :
  coherence_label 0.5 [0; 0; 1; 1; 1]%Z [-2; -1; 0; 1; 2] = Low.
Proof.
  eval_label [(0%Z, -2); (0%Z, -1)].
Qed.

(** Hits on the easy items, against an ability of 0: the one easy item is
    answered, the label is High. *)
Example coherence_easy_hits :
  coherence_label 0 [1; 1; 1; 0; 0]%Z [-2; -1; 0; 1; 2] = High.
Proof.
  eval_label [(1%Z, -2)].
Qed.

(** One hit out of two easy items is an accuracy of exactly 0.5: High. *)
Example coherence_exactly_half :
  coherence_label 2 [1; 0; 1]%Z [-2; -1; 3] = High.
Proof.
  eval_label [(1%Z, -2); (0%Z, -1)].
Qed.

(** C1. On a response vector and a difficulty vector of one length,
    [analyze_consistency] returns a record whose label follows the rule and
    nothing else: with the easy subset the items of difficulty below
    [theta - 1.0], the label is High when the easy subset is empty, Low when
    it is not empty and the accuracy within it is below 0.5, and High when it
    is not empty and the accuracy is 0.5 or more. *)
Theorem analyze_consistency_label (self : TRIEngine) (theta : R)
        (r : list Z) (b : list R) :
  length r = length b ->
  exists rec : analysis,
    analyze_consistency self theta r b = Ok rec
    /\ coerencia rec = coherence_label theta r b
    /\ (let easy := easy_subset theta r b in
        (easy = [] -> coerencia rec = High)
        /\ (easy <> [] -> accuracy easy < 0.5 -> coerencia rec = Low)
        /\ (easy <> [] -> 0.5 <= accuracy easy -> coerencia rec = High)).
Proof.
  intros Hlen. eexists. split; [|split].
  - rewrite analyze_consistency_skip_sort by exact Hlen.
    apply analyze_consistency_nosort_eq. exact Hlen.
  - reflexivity.
  - cbn [coerencia]. apply coherence_label_cases.
Qed.

Lemma analyze_consistency_label_witness :
  exists rec : analysis,
    analyze_consistency (__init__ None None) 0.5 [0; 0; 1; 1; 1]%Z
                        [-2; -1; 0; 1; 2] = Ok rec
    /\ coerencia rec = Low.
Proof.
  destruct (analyze_consistency_label (__init__ None None) 0.5
              [0; 0; 1; 1; 1]%Z [-2; -1; 0; 1; 2] eq_refl)
    as [rec [Hrun [Hlabel _]]].
  exists rec. split; [exact Hrun|].
  rewrite Hlabel. exact coherence_hard_hits_only.
Defined.

(** C10. On a response vector with a response for every difficulty, and so
    on arrays of one length, [analyze_consistency] has the very outcome of
    the function without the argsort-based reordering; on arrays of one
    length that outcome is the record of the number of correct responses,
    the ability rounded to 4 decimals, and the label the masked-accuracy
    rule gives on the arrays as they were passed. *)
Theorem analyze_consistency_ignores_sort (self : TRIEngine) (theta : R)
        (r : list Z) (b : list R) :
  (length b <= length r)%nat ->
  analyze_consistency self theta r b
  = analyze_consistency_nosort self theta r b
  /\ (length r = length b ->
      analyze_consistency self theta r b
      = Ok {| total_acertos := np.isum r;
              theta_estimado := round theta 4;
              coerencia := coherence_label theta r b |}).
Proof.
  intros Hle.
  rewrite analyze_consistency_skip_sort_le by exact Hle.
  split; [reflexivity|].
  intros Hlen. apply analyze_consistency_nosort_eq. exact Hlen.
Qed.

Lemma analyze_consistency_ignores_sort_witness :
  analyze_consistency (__init__ None None) 0.5 [0; 0; 1; 1; 1]%Z
                      [2; -1; 0; 1; -2]
  = analyze_consistency_nosort (__init__ None None) 0.5 [0; 0; 1; 1; 1]%Z
                               [2; -1; 0; 1; -2].
Proof.
  apply (proj1 (analyze_consistency_ignores_sort (__init__ None None) 0.5
                  [0; 0; 1; 1; 1]%Z [2; -1; 0; 1; -2] (Nat.le_refl _))).
Defined.

(** ** Rounding *)

Lemma rint_low (z : Z) (v : R) :
  IZR z <= v < IZR z + 1 / 2 -> rint v = z.
Proof.
  intros H. unfold rint.
  rewrite <- (Int_part_spec v z) by lra.
  destruct (Rlt_dec _ _); [reflexivity|lra].
Qed.

Lemma rint_high (z : Z) (v : R) :
  IZR z + 1 / 2 < v < IZR z + 1 -> rint v = (z + 1)%Z.
Proof.
  intros H. unfold rint.
  rewrite <- (Int_part_spec v z) by lra.
  destruct (Rlt_dec _ _); [lra|].
  destruct (Rlt_dec _ _); [reflexivity|lra].
Qed.

Lemma rint_tie (z : Z) (v : R) :
  v = IZR z + 1 / 2 -> rint v = if Z.even z then z else (z + 1)%Z.
Proof.
  intros H. unfold rint.
  rewrite <- (Int_part_spec v z) by lra.
  destruct (Rlt_dec _ _); [lra|].
  destruct (Rlt_dec _ _); [lra|reflexivity].
Qed.


Example round_half_to_even : round 0.12345 4 = 0.1234.
Proof.
  unfold round. rewrite (rint_tie 1234) by lra. simpl. lra.
Qed.

Example round_down : round 0.12341 4 = 0.1234.
Proof.
  unfold round. rewrite (rint_low 1234) by lra. lra.
Qed.

Example round_negative : round (- 0.00018) 4 = - 0.0002.
Proof.
  unfold round. rewrite (rint_low (-2)) by lra. lra.
Qed.

(** * Further properties of the engine *)

(** ** The probability model *)

Lemma logistic_3pl_range (self : TRIEngine) (theta a b c : R) :
  c < 1 ->
  c < logistic_3pl self theta a b c < 1.
Proof.
  intros Hc.
  pose proof (exp_pos (- a * (theta - b))) as HE.
  pose proof (logistic_3pl_above_floor self theta a b c) as Hlo.
  pose proof (logistic_3pl_below_one self theta a b c) as Hhi.
  assert (0 < (1 - c) / (1 + exp (- a * (theta - b))))
    by (apply Rdiv_lt_0_compat; lra).
  assert (0 < exp (- a * (theta - b)) / (1 + exp (- a * (theta - b))))
    by (apply Rdiv_lt_0_compat; lra).
  assert (0 < (1 - c) * (exp (- a * (theta - b))
                         / (1 + exp (- a * (theta - b)))))
    by (apply Rmult_lt_0_compat; lra).
  lra.
Qed.

(** X1. For a positive discrimination and a guessing floor in [[0, 1)] the
    probability lies between the floor and 1, whatever the ability and the
    difficulty. *)
Theorem logistic_3pl_between_floor_and_one
        (self : TRIEngine) (theta a b c : R) :
  0 < a -> 0 <= c < 1 ->
  c <= logistic_3pl self theta a b c <= 1.
Proof.
  intros _ [_ Hc]. pose proof (logistic_3pl_range self theta a b c Hc). lra.
Qed.

Lemma logistic_3pl_between_floor_and_one_witness :
  0.2 <= logistic_3pl (__init__ None None) 7 1.5 0 0.2 <= 1.
Proof.
  apply (logistic_3pl_between_floor_and_one (__init__ None None) 7 1.5 0 0.2);
    lra.
Defined.

(** In exact arithmetic the curve is point-symmetric about the item's
    difficulty: the probabilities at equal distances below and above [b]
    add up to [1 + c]. *)
Lemma logistic_3pl_point_symmetry_exact (self : TRIEngine) (a b c d : R) :
  logistic_3pl self (b + d) a b c + logistic_3pl self (b - d) a b c = 1 + c.
Proof.
  unfold logistic_3pl.
  replace (- a * (b + d - b)) with (- (a * d)) by ring.
  replace (- a * (b - d - b)) with (a * d) by ring.
  rewrite exp_Ropp.
  pose proof (exp_pos (a * d)) as HE.
  field. split; lra.
Qed.

Lemma exp_nat_le_pow3 (n : nat) : exp (INR n) <= 3 ^ n.
Proof.
  induction n as [|n IH].
  - simpl. rewrite exp_0. lra.
  - rewrite S_INR, exp_plus. cbn [pow].
    pose proof exp_le_3. pose proof (exp_pos (INR n)). pose proof (exp_pos 1).
    rewrite Rmult_comm. apply Rmult_le_compat; lra.
Qed.

Lemma exp_20_bound : exp 20 <= 3486784401.
Proof.
  pose proof (exp_nat_le_pow3 20) as H.
  replace (INR 20) with 20 in H by (simpl; lra).
  replace (3 ^ 20) with 3486784401 in H by (simpl; lra).
  exact H.
Qed.

(** The clipping leaves the probability of an item as it is when the
    guessing floor is between [1e-10] and one half and [a (theta - b)] is
    at most 20. *)
Lemma clip1_logistic_3pl_unclipped (self : TRIEngine) (theta a b c : R) :
  unclipped_item theta (a, (b, c)) ->
  np.clip1 1e-10 (1 - 1e-10) (logistic_3pl self theta a b c)
  = logistic_3pl self theta a b c.
Proof.
  unfold unclipped_item. cbn [fst snd]. intros [[Hc0 Hc1] Hexp].
  pose proof (logistic_3pl_range self theta a b c ltac:(lra)) as [Hlo _].
  assert (Hhi : logistic_3pl self theta a b c <= 1 - 1e-10).
  { set (F := exp (a * (theta - b))).
    assert (HF : 0 < F) by apply exp_pos.
    assert (HF20 : F <= 3486784401).
    { eapply Rle_trans; [|apply exp_20_bound].
      destruct Hexp as [Hlt|Heq].
      - left. now apply exp_increasing.
      - right. unfold F. now rewrite Heq. }
    assert (Heq : 1 - logistic_3pl self theta a b c = (1 - c) * / (1 + F)).
    { rewrite logistic_3pl_below_one.
      replace (- a * (theta - b)) with (- (a * (theta - b))) by ring.
      rewrite exp_Ropp. fold F. field. split; lra. }
    assert (HG : / 3486784402 <= / (1 + F))
      by (apply Rinv_le_contravar; lra).
    assert (0 < / (1 + F)) by (apply Rinv_0_lt_compat; lra).
    assert (1e-10 <= (1 - c) * / (1 + F)) by nra.
    lra. }
  unfold np.clip1.
  rewrite Rmax_left by lra. rewrite Rmin_right by lra. reflexivity.
Qed.

(** X3. On item parameters of one length whose guessing floors lie between
    [1e-10] and one half and whose [a (theta - b)] is at most 20, the
    clipping of [log_posterior] changes nothing: the clipped probabilities
    are the 3PL probabilities themselves. *)
Theorem clipped_p_unclipped (self : TRIEngine) (theta : R) (a b c : list R) :
  length a = length b -> length b = length c ->
  Forall (unclipped_item theta) (combine a (combine b c)) ->
  clipped_p self theta a b c = logistic_3pl_arr self theta a b c.
Proof.
  intros Hab Hbc Hreal.
  rewrite clipped_p_eq, logistic_3pl_arr_eq by assumption.
  f_equal. unfold np.clip. revert b c Hab Hbc Hreal.
  induction a as [|a0 a IH]; intros [|b0 b] [|c0 c] Hab Hbc Hreal;
    simpl in *; try discriminate; [reflexivity|].
  inversion Hreal as [|? ? H0 Hrest]; subst.
  rewrite clip1_logistic_3pl_unclipped by exact H0.
  f_equal. apply IH; [lia|lia|exact Hrest].
Qed.

Lemma clipped_p_unclipped_witness :
  clipped_p (__init__ None None) 3 [1.5; 3] [-2; -3] [0.2; 0.25]
  = logistic_3pl_arr (__init__ None None) 3 [1.5; 3] [-2; -3] [0.2; 0.25].
Proof.
  apply (clipped_p_unclipped (__init__ None None) 3
                             [1.5; 3] [-2; -3] [0.2; 0.25]);
    [reflexivity | reflexivity |].
  repeat constructor; cbn [fst snd]; lra.
Defined.

(** ** Shapes the posterior objective accepts *)

(** What [np.broadcast] does, by the shapes of its arguments. *)
Lemma broadcast_cases {A B C : Type} (f : A -> B -> C)
      (u : list A) (v : list B) :
  (compatible (length u) (length v)
   /\ exists l, np.broadcast f u v = Ok l
                /\ length l = broadcast_length (length u) (length v))
  \/ (~ compatible (length u) (length v)
      /\ np.broadcast f u v = Raise ValueError).
Proof.
  unfold np.broadcast, compatible, broadcast_length.
  destruct (length u =? length v)%nat eqn:E.
  - apply Nat.eqb_eq in E. left. split; [now left|].
    eexists. split; [reflexivity|]. now apply length_zip_with.
  - apply Nat.eqb_neq in E.
    destruct u as [|u0 [|u1 u]].
    + destruct v as [|v0 [|v1 v]]; simpl in *; try lia.
      * left. split; [now right; right|]. eexists. split; reflexivity.
      * right. split; [lia|reflexivity].
    + left. split; [now right; left|].
      eexists. split; [reflexivity|]. simpl. now rewrite length_map.
    + destruct v as [|v0 [|v1 v]]; simpl in *.
      * right. split; [lia|reflexivity].
      * left. split; [now right; right|].
        eexists. split; [reflexivity|]. simpl. now rewrite length_map.
      * right. split; [lia|reflexivity].
Qed.

Ltac broadcast_step :=
  match goal with
  | |- context [np.broadcast ?f ?u ?v] =>
      let Hc := fresh "Hc" in
      let l := fresh "l" in
      let Hl := fresh "Hl" in
      let Hn := fresh "Hn" in
      destruct (broadcast_cases f u v) as [[Hc [l [Hl Hn]]]|[Hc Hl]];
      rewrite Hl; cbn [bind];
      unfold np.log, np.exp, np.clip in *;
      rewrite ?length_map in *
  end.

(** The shapes [logistic_3pl_arr] accepts, and the shape it returns. *)
Lemma logistic_3pl_arr_shape (self : TRIEngine) (theta : R)
      (a b c : list R) :
  (compatible (length a) (length b)
   /\ compatible (length c) (broadcast_length (length a) (length b))
   /\ exists p, logistic_3pl_arr self theta a b c = Ok p
                /\ length p
                   = broadcast_length
                       (length c)
                       (broadcast_length (length a) (length b)))
  \/ (~ (compatible (length a) (length b)
         /\ compatible (length c) (broadcast_length (length a) (length b)))
      /\ logistic_3pl_arr self theta a b c = Raise ValueError).
Proof.
  unfold logistic_3pl_arr.
  broadcast_step; [|right; split; [tauto|reflexivity]].
  broadcast_step; [|right; rewrite Hn in *; split; [tauto|reflexivity]].
  rewrite Hn in *.
  broadcast_step.
  - left. repeat split; try assumption.
    exists l1. split; [reflexivity|].
    rewrite Hn1, Hn0. unfold broadcast_length, compatible in *.
    repeat match goal with
           | |- context [(?n =? ?m)%nat] =>
               destruct (Nat.eqb_spec n m)
           end; lia.
  - exfalso. apply Hc1. rewrite Hn0.
    unfold broadcast_length, compatible in *.
    repeat match goal with
           | |- context [(?n =? ?m)%nat] =>
               destruct (Nat.eqb_spec n m)
           end; lia.
Qed.

(** Whether [log_posterior] returns or raises, by the shapes. *)
Lemma log_posterior_by_shape (self : TRIEngine) (theta : R)
      (r : list Z) (a b c : list R) :
  let pairwise :=
    compatible (length a) (length b) /\ compatible (length a) (length c)
    /\ compatible (length b) (length c) /\ compatible (length r) (length a)
    /\ compatible (length r) (length b) /\ compatible (length r) (length c) in
  (pairwise -> exists v, log_posterior self theta r a b c = Ok v)
  /\ (~ pairwise -> log_posterior self theta r a b c = Raise ValueError).
Proof.
  cbv zeta. unfold log_posterior, clipped_p.
  destruct (logistic_3pl_arr_shape self theta a b c)
    as [[Hab [Hc [p [Hp Hn]]]]|[Hbad Hp]]; rewrite Hp; cbn [bind].
  - broadcast_step.
    + broadcast_step.
      * rewrite broadcast_same_shape by congruence. cbn [bind].
        split; [intros _; eexists; reflexivity|].
        intros Hno. exfalso. apply Hno.
        rewrite Hn in *. clear - Hab Hc Hc0.
        unfold broadcast_length, compatible in *.
        repeat match goal with
               | H : context [(?n =? ?m)%nat] |- _ =>
                   destruct (Nat.eqb_spec n m)
               end; lia.
      * exfalso. apply Hc1. exact Hc0.
    + split; [|reflexivity].
      intros Hyes. exfalso. apply Hc0. rewrite Hn. clear - Hyes.
      unfold broadcast_length, compatible in *.
      repeat match goal with
             | |- context [(?n =? ?m)%nat] =>
                 destruct (Nat.eqb_spec n m)
             end; lia.
  - split; [|reflexivity].
    intros Hyes. exfalso. apply Hbad. clear - Hyes.
    unfold broadcast_length, compatible in *.
    repeat match goal with
           | |- context [(?n =? ?m)%nat] =>
               destruct (Nat.eqb_spec n m)
           end; lia.
Qed.

(** X4. [log_posterior] checks no length itself: it returns a value exactly
    when numpy can broadcast the four arrays together, that is when any two
    of them have one length or one of the two has a single element; on any
    other shapes it raises the [ValueError] of numpy. *)
Theorem log_posterior_shapes (self : TRIEngine) (theta : R)
        (r : list Z) (a b c : list R) :
  let pairwise :=
    compatible (length a) (length b) /\ compatible (length a) (length c)
    /\ compatible (length b) (length c) /\ compatible (length r) (length a)
    /\ compatible (length r) (length b) /\ compatible (length r) (length c) in
  (pairwise -> exists v, log_posterior self theta r a b c = Ok v)
  /\ (~ pairwise -> log_posterior self theta r a b c = Raise ValueError).
Proof. exact (log_posterior_by_shape self theta r a b c). Qed.

Lemma log_posterior_shapes_witness :
  (exists v, log_posterior (__init__ None None) 0 [1%Z] [1.5; 1.2] [-2; -1]
                           [0.2] = Ok v)
  /\ log_posterior (__init__ None None) 0 [1%Z; 0%Z] [1.5; 1.2; 1] [-2; -1]
                   [0.2; 0.2] = Raise ValueError.
Proof.
  split.
  - apply (proj1 (log_posterior_shapes (__init__ None None) 0 [1%Z]
                                       [1.5; 1.2] [-2; -1] [0.2])).
    unfold compatible. simpl. lia.
  - apply (proj2 (log_posterior_shapes (__init__ None None) 0 [1%Z; 0%Z]
                                       [1.5; 1.2; 1] [-2; -1] [0.2; 0.2])).
    unfold compatible. simpl. lia.
Defined.

Lemma broadcast_singleton {A B C : Type} (f : A -> B -> C)
      (u : A) (v : list B) :
  np.broadcast f [u] v = Ok (map (f u) v).
Proof.
  unfold np.broadcast. destruct v as [|v0 [|v1 v]]; reflexivity.
Qed.

Lemma zip_with_repeat {A B C : Type} (f : A -> B -> C) (u : A) (v : list B) :
  np.zip_with f (repeat u (length v)) v = map (f u) v.
Proof.
  unfold np.zip_with. induction v as [|v0 v IH]; simpl; [reflexivity|].
  now rewrite IH.
Qed.

(** X5. A response vector of a single element is not rejected against [n]
    items: numpy stretches it, and [log_posterior] returns what it returns
    for that response repeated [n] times. *)
Theorem log_posterior_single_response (self : TRIEngine) (theta : R)
        (r0 : Z) (a b c : list R) :
  length a = length b -> length b = length c ->
  log_posterior self theta [r0] a b c
  = log_posterior self theta (repeat r0 (length a)) a b c.
Proof.
  intros Hab Hbc. unfold log_posterior.
  rewrite clipped_p_eq by assumption. cbn [bind].
  set (p := np.clip _ _ _).
  assert (Hp : length p = length a) by (unfold p; solve_len).
  cbn [map]. rewrite !broadcast_singleton. cbn [bind].
  rewrite map_repeat.
  repeat (rewrite broadcast_same_shape
            by (unfold np.log;
                repeat (rewrite repeat_length || rewrite length_map
                        || (rewrite length_zip_with
                              by (unfold np.log;
                                  rewrite ?repeat_length, ?length_map; lia)));
                lia);
          cbn [bind]).
  replace (length a) with (length (np.log p))
    by (unfold np.log; rewrite length_map; exact Hp).
  rewrite zip_with_repeat.
  replace (length (np.log p))
    with (length (np.log (map (fun v => 1 - v) p)))
    by (unfold np.log; now rewrite !length_map).
  rewrite zip_with_repeat. reflexivity.
Qed.

Lemma log_posterior_single_response_witness :
  log_posterior (__init__ None None) 0 [1%Z] [1.5; 1.2] [-2; -1] [0.2; 0.2]
  = log_posterior (__init__ None None) 0 [1%Z; 1%Z] [1.5; 1.2] [-2; -1]
                  [0.2; 0.2].
Proof.
  apply (log_posterior_single_response (__init__ None None) 0 1%Z
                                       [1.5; 1.2] [-2; -1] [0.2; 0.2]);
    reflexivity.
Defined.

(** ** The estimator on arrays it cannot use *)

(** X6. [estimate_theta] validates nothing and catches nothing: with an
    optimiser that lets an exception of the objective at the starting point
    through, arrays numpy cannot broadcast together make it raise
    [ValueError]; the fallback to [0.0] does not apply. *)
Theorem estimate_theta_raises_on_shapes
        (minimize : (R -> result R) -> R -> result OptimizeResult)
        (self : TRIEngine) (r : list Z) (a b c : list R) :
  (forall f x0 e, f x0 = Raise e -> minimize f x0 = Raise e) ->
  ~ (compatible (length a) (length b) /\ compatible (length a) (length c)
     /\ compatible (length b) (length c) /\ compatible (length r) (length a)
     /\ compatible (length r) (length b) /\ compatible (length r) (length c)) ->
  estimate_theta minimize self r a b c = Raise ValueError.
Proof.
  intros Hmin Hshape. unfold estimate_theta. cbv zeta.
  rewrite (Hmin _ _ ValueError); [reflexivity|].
  unfold objective.
  now rewrite (proj2 (log_posterior_by_shape self 0.0 r a b c) Hshape).
Qed.

Lemma estimate_theta_raises_on_shapes_witness :
  estimate_theta minimize_evaluates (__init__ None None)
                 [1%Z; 0%Z; 1%Z] [1.5; 1.2] [-2; -1] [0.2; 0.2]
  = Raise ValueError.
Proof.
  apply (estimate_theta_raises_on_shapes minimize_evaluates
           (__init__ None None) [1%Z; 0%Z; 1%Z] [1.5; 1.2] [-2; -1]
           [0.2; 0.2]).
  - intros f x0 e H. unfold minimize_evaluates. now rewrite H.
  - unfold compatible. simpl. lia.
Defined.

(** ** The score transform *)

(** X7. With a [std_scale] that is not negative the score does not
    decrease with the ability. *)
Theorem to_enem_score_nondecreasing (self : TRIEngine) (t u : R) :
  0 <= std_scale self -> t <= u ->
  to_enem_score self t <= to_enem_score self u.
Proof.
  intros Hs Htu. unfold to_enem_score. nra.
Qed.

Lemma to_enem_score_nondecreasing_witness :
  to_enem_score (__init__ None None) 1 <= to_enem_score (__init__ None None) 2.
Proof.
  apply (to_enem_score_nondecreasing (__init__ None None) 1 2); simpl; lra.
Defined.

(** X8. The score is not clamped to the 0-1000 scale: with the default
    constants it lies between 0 and 1000 exactly when the ability lies
    between -5 and 5. *)
Theorem to_enem_score_default_scale (theta : R) :
  0 <= to_enem_score (__init__ None None) theta <= 1000
  <-> -5 <= theta <= 5.
Proof. unfold to_enem_score. simpl. split; lra. Qed.

(** ** The coherence analysis *)

Lemma isum_perm (l l' : list Z) :
  Permutation l l' -> np.isum l = np.isum l'.
Proof.
  induction 1; unfold np.isum in *; simpl; lia.
Qed.

Lemma accuracy_perm (l l' : list (Z * R)) :
  Permutation l l' -> accuracy l = accuracy l'.
Proof.
  intros H. unfold accuracy.
  rewrite (isum_perm _ _ (Permutation_map fst H)).
  now rewrite (Permutation_length H).
Qed.

Lemma filter_perm {A : Type} (f : A -> bool) (l l' : list A) :
  Permutation l l' -> Permutation (filter f l) (filter f l').
Proof.
  induction 1; simpl.
  - constructor.
  - destruct (f x0); [constructor|]; assumption.
  - destruct (f x0), (f y); try apply Permutation_refl; apply perm_swap.
  - eapply perm_trans; eassumption.
Qed.

Lemma map_fst_combine {A B : Type} (u : list A) (v : list B) :
  length u = length v -> map fst (combine u v) = u.
Proof.
  revert v. induction u as [|u0 u IH]; intros [|v0 v] H; simpl in *;
    try discriminate; [reflexivity|].
  f_equal. apply IH. lia.
Qed.

(** X9. The analysis does not depend on the order of the items: reordering
    the responses together with their difficulties leaves the whole record
    (count, rounded ability, label) as it was. *)
Theorem analyze_consistency_item_order (self : TRIEngine) (theta : R)
        (r r' : list Z) (b b' : list R) :
  length r = length b -> length r' = length b' ->
  Permutation (combine r b) (combine r' b') ->
  analyze_consistency self theta r b = analyze_consistency self theta r' b'.
Proof.
  intros Hlen Hlen' Hperm.
  rewrite !analyze_consistency_skip_sort by assumption.
  rewrite !analyze_consistency_nosort_eq by assumption.
  assert (Hsum : np.isum r = np.isum r').
  { rewrite <- (map_fst_combine r b), <- (map_fst_combine r' b')
      by assumption.
    apply isum_perm. now apply Permutation_map. }
  assert (Hlab : coherence_label theta r b = coherence_label theta r' b').
  { unfold coherence_label. cbv zeta.
    pose proof (filter_perm
                  (fun it : Z * R => np.Rltb (snd it) (theta - 1.0))
                  _ _ Hperm) as Hf.
    fold (easy_subset theta r b) in Hf. fold (easy_subset theta r' b') in Hf.
    rewrite (accuracy_perm _ _ Hf).
    destruct (easy_subset theta r b) as [|it e].
    - apply Permutation_nil in Hf. now rewrite Hf.
    - destruct (easy_subset theta r' b') as [|it' e']; [|reflexivity].
      apply Permutation_sym, Permutation_nil in Hf. discriminate. }
  now rewrite Hsum, Hlab.
Qed.

Lemma analyze_consistency_item_order_witness :
  analyze_consistency (__init__ None None) 0.5 [0; 1; 1]%Z [-2; 0; 1]
  = analyze_consistency (__init__ None None) 0.5 [1; 0; 1]%Z [0; -2; 1].
Proof.
  apply (analyze_consistency_item_order (__init__ None None) 0.5
           [0; 1; 1]%Z [1; 0; 1]%Z [-2; 0; 1] [0; -2; 1]);
    [reflexivity | reflexivity | apply perm_swap].
Defined.

Lemma easy_subset_binary (theta : R) (r : list Z) (b : list R) :
  Forall (fun ri => ri = 0%Z \/ ri = 1%Z) r ->
  Forall (fun it => fst it = 0%Z \/ fst it = 1%Z) (easy_subset theta r b).
Proof.
  intros Hbin. apply Forall_forall. intros [ri bi] Hin.
  unfold easy_subset in Hin. apply filter_In in Hin. destruct Hin as [Hin _].
  apply in_combine_l in Hin.
  exact (proj1 (Forall_forall _ r) Hbin ri Hin).
Qed.

(** X10. On binary responses the label is Low exactly when more than half
    of the easy items are missed: twice the number of correct easy responses
    is below the number of easy items. *)
Theorem coherence_low_iff_majority_missed (self : TRIEngine) (theta : R)
        (r : list Z) (b : list R) :
  Forall (fun ri => ri = 0%Z \/ ri = 1%Z) r ->
  length r = length b ->
  exists rec : analysis,
    analyze_consistency self theta r b = Ok rec
    /\ (let easy := easy_subset theta r b in
        let correct := filter (fun it => Z.eqb (fst it) 1) easy in
        coerencia rec = Low <-> (2 * length correct < length easy)%nat).
Proof.
  intros Hbin Hlen. eexists. split.
  - rewrite analyze_consistency_skip_sort by exact Hlen.
    apply analyze_consistency_nosort_eq. exact Hlen.
  - cbn [coerencia]. cbv zeta. unfold coherence_label. cbv zeta.
    pose proof (accuracy_counts_correct _ (easy_subset_binary theta r b Hbin))
      as Hacc.
    destruct (easy_subset theta r b) as [|it easy] eqn:E.
    + simpl. split; [discriminate|lia].
    + set (items := it :: easy) in *.
      set (k := length (filter (fun it0 : Z * R => (fst it0 =? 1)%Z) items))
        in *.
      assert (Hn : 0 < INR (length items))
        by (apply lt_0_INR; unfold items; simpl; lia).
      assert (Hiff : accuracy items < 0.5 <-> (2 * k < length items)%nat).
      { rewrite Hacc. split; intros H.
        - apply INR_lt. rewrite mult_INR. simpl INR at 1.
          apply Rmult_lt_reg_r with (/ INR (length items));
            [now apply Rinv_0_lt_compat|].
          rewrite Rinv_r by lra. unfold Rdiv in H. lra.
        - apply lt_INR in H. rewrite mult_INR in H. simpl INR at 1 in H.
          apply Rmult_lt_reg_r with (INR (length items)); [exact Hn|].
          unfold Rdiv. rewrite Rmult_assoc, Rinv_l by lra. lra. }
      destruct (Rlt_dec (accuracy items) 0.5) as [Hlt|Hge].
      * split; [intros _; now apply Hiff|reflexivity].
      * split; [discriminate|]. intros H. apply Hiff in H. contradiction.
Qed.

Lemma coherence_low_iff_majority_missed_witness :
  exists rec : analysis,
    analyze_consistency (__init__ None None) 0.5 [0; 0; 1; 1; 1]%Z
                        [-2; -1; 0; 1; 2] = Ok rec
    /\ (let easy := easy_subset 0.5 [0; 0; 1; 1; 1]%Z [-2; -1; 0; 1; 2] in
        let correct := filter (fun it => Z.eqb (fst it) 1) easy in
        coerencia rec = Low <-> (2 * length correct < length easy)%nat).
Proof.
  apply (coherence_low_iff_majority_missed (__init__ None None) 0.5
           [0; 0; 1; 1; 1]%Z [-2; -1; 0; 1; 2]).
  - repeat (constructor; [first [left; reflexivity | right; reflexivity]|]).
    constructor.
  - reflexivity.
Defined.

Lemma isum_all_correct (items : list (Z * R)) :
  Forall (fun it => fst it = 1%Z) items ->
  np.isum (map fst items) = Z.of_nat (length items).
Proof.
  induction 1 as [|it items H1 _ IH]; [reflexivity|].
  cbn [map length]. unfold np.isum in *. cbn [fold_right].
  rewrite IH, H1. lia.
Qed.

(** X11. A student who misses no easy item is labelled High: when every
    item of the easy subset is answered correctly (in particular when all
    responses are correct, or when no item is easy), the label is High. *)
Theorem coherence_high_without_easy_miss (self : TRIEngine) (theta : R)
        (r : list Z) (b : list R) :
  length r = length b ->
  Forall (fun it => fst it = 1%Z) (easy_subset theta r b) ->
  exists rec : analysis,
    analyze_consistency self theta r b = Ok rec /\ coerencia rec = High.
Proof.
  intros Hlen Hall. eexists. split.
  - rewrite analyze_consistency_skip_sort by exact Hlen.
    apply analyze_consistency_nosort_eq. exact Hlen.
  - cbn [coerencia]. unfold coherence_label. cbv zeta.
    pose proof (isum_all_correct _ Hall) as Hsum.
    destruct (easy_subset theta r b) as [|it easy]; [reflexivity|].
    destruct (Rlt_dec _ _) as [Hlt|]; [|reflexivity].
    exfalso. unfold accuracy in Hlt. rewrite Hsum, <- INR_IZR_INZ in Hlt.
    assert (0 < INR (length (it :: easy)))
      by (apply lt_0_INR; simpl; lia).
    unfold Rdiv in Hlt. rewrite Rinv_r in Hlt by lra. lra.
Qed.

Lemma coherence_high_without_easy_miss_witness :
  exists rec : analysis,
    analyze_consistency (__init__ None None) 0 [1; 0; 0]%Z [-2; 0; 1] = Ok rec
    /\ coerencia rec = High.
Proof.
  apply (coherence_high_without_easy_miss (__init__ None None) 0
           [1; 0; 0]%Z [-2; 0; 1] eq_refl).
  replace (easy_subset 0 [1; 0; 0]%Z [-2; 0; 1]) with [(1%Z, -2)]
    by (unfold easy_subset, np.Rltb; simpl; decide_reals).
  repeat constructor.
Defined.





(** *** Arrays of different lengths *)

Lemma index_array_out_of_range {A : Type} (v : list A) (idx : list nat)
      (i : nat) :
  In i idx -> (length v <= i)%nat -> np.index_array v idx = Raise IndexError.
Proof.
  intros Hin Hi. induction idx as [|j idx IH]; [contradiction|].
  simpl. destruct (nth_error v j) as [a|] eqn:E; [|reflexivity].
  destruct Hin as [Heq|Hin].
  - subst j. assert (i < length v)%nat by (apply nth_error_Some; congruence).
    lia.
  - now rewrite (IH Hin).
Qed.

(** X13. With fewer responses than difficulties [analyze_consistency]
    raises [IndexError], whatever the ability and the values: the reordering
    of its first lines reads a response for every difficulty. *)
Theorem analyze_consistency_fewer_responses (self : TRIEngine) (theta : R)
        (r : list Z) (b : list R) :
  (length r < length b)%nat ->
  analyze_consistency self theta r b = Raise IndexError.
Proof.
  intros Hlen. unfold analyze_consistency. cbv zeta.
  rewrite (index_array_out_of_range r (np.argsort b) (length r));
    [reflexivity| |lia].
  eapply Permutation_in; [apply Permutation_sym, argsort_perm|].
  apply in_seq. lia.
Qed.

Lemma analyze_consistency_fewer_responses_witness :
  analyze_consistency (__init__ None None) 3 [1%Z] [0; 5] = Raise IndexError.
Proof.
  apply (analyze_consistency_fewer_responses (__init__ None None) 3
                                             [1%Z] [0; 5]).
  simpl. lia.
Defined.

Lemma any_less_true (b : list R) (s : R) :
  Exists (fun bi => bi < s) b -> np.any (np.less b s) = true.
Proof.
  unfold np.any, np.less, np.Rltb.
  induction 1 as [bi b H|bi b _ IH]; simpl.
  - destruct (Rlt_dec bi s); [reflexivity|contradiction].
  - rewrite IH. apply orb_true_r.
Qed.

Lemma any_less_false (b : list R) (s : R) :
  Forall (fun bi => ~ bi < s) b -> np.any (np.less b s) = false.
Proof.
  unfold np.any, np.less, np.Rltb.
  induction 1 as [|bi b H _ IH]; simpl; [reflexivity|].
  rewrite IH. destruct (Rlt_dec bi s); [contradiction|reflexivity].
Qed.

(** X14. With more responses than difficulties the outcome depends on the
    values: if some difficulty is below [theta - 1.0] the mask does not fit
    the responses and [analyze_consistency] raises [IndexError]; if none
    is, it returns a record with the label High and the count of all the
    responses, the surplus included. *)
Theorem analyze_consistency_more_responses (self : TRIEngine) (theta : R)
        (r : list Z) (b : list R) :
  (length b < length r)%nat ->
  (Exists (fun bi => bi < theta - 1.0) b ->
   analyze_consistency self theta r b = Raise IndexError)
  /\ (Forall (fun bi => ~ bi < theta - 1.0) b ->
      analyze_consistency self theta r b
      = Ok {| total_acertos := np.isum r;
              theta_estimado := round theta 4;
              coerencia := High |}).
Proof.
  intros Hlen. unfold analyze_consistency. cbv zeta.
  destruct (index_array_argsort_le r b ltac:(lia)) as [sr ->].
  destruct (index_array_argsort_le b b ltac:(lia)) as [sb ->].
  cbn [bind]. unfold _check_coherence. cbv zeta. split; intros H.
  - rewrite (any_less_true _ _ H). unfold np.index_mask, np.less.
    rewrite length_map.
    destruct (Nat.eqb_spec (length r) (length b)); [lia|reflexivity].
  - rewrite (any_less_false _ _ H). reflexivity.
Qed.

Lemma analyze_consistency_more_responses_witness :
  analyze_consistency (__init__ None None) 2 [1; 0; 1]%Z [0; 5]
  = Raise IndexError
  /\ analyze_consistency (__init__ None None) 0 [1; 0; 1]%Z [0; 5]
     = Ok {| total_acertos := 2;
             theta_estimado := round 0 4;
             coerencia := High |}.
Proof.
  split.
  - apply (proj1 (analyze_consistency_more_responses (__init__ None None) 2
                    [1; 0; 1]%Z [0; 5] ltac:(simpl; lia))).
    constructor. lra.
  - apply (proj2 (analyze_consistency_more_responses (__init__ None None) 0
                    [1; 0; 1]%Z [0; 5] ltac:(simpl; lia))).
    repeat constructor; lra.
Defined.

(** * The analysis tab of the application *)

Lemma round_zero : round 0.0 4 = 0.
Proof.
  unfold round. replace (0.0 * 10 ^ 4) with 0 by (simpl; lra).
  rewrite (rint_low 0) by lra. simpl. lra.
Qed.

(** X15. When the optimiser reports a failure, the analysis tab shows the
    centre of the scale: the ability is 0, the score is 500 whatever the
    responses are, the recommendation is the one for scores below 800, and
    the coherence label is the one of an ability of 0 (the easy items are
    those of difficulty below -1). *)
Theorem calcular_tri_failed_optimisation
        (minimize : (R -> result R) -> R -> result OptimizeResult)
        (r : list Z) (a b c : list R) (res : OptimizeResult) :
  minimize (objective (__init__ None None) r a b c) 0.0 = Ok res ->
  success res = false ->
  length r = length b ->
  exists (theta nota : R) (analise : analysis),
    calcular_tri minimize r a b c = Ok (theta, nota, analise)
    /\ theta = 0 /\ nota = 500
    /\ recomendacao nota = st_warning
    /\ total_acertos analise = np.isum r
    /\ theta_estimado analise = 0
    /\ coerencia analise = coherence_label 0.0 r b.
Proof.
  intros Hres Hfail Hlen. unfold calcular_tri, estimate_theta. cbv zeta.
  rewrite Hres. cbn [bind]. rewrite Hfail. cbn [bind].
  rewrite analyze_consistency_skip_sort by exact Hlen.
  rewrite analyze_consistency_nosort_eq by exact Hlen. cbn [bind].
  do 3 eexists. split; [reflexivity|].
  cbn [total_acertos theta_estimado coerencia].
  assert (Hn : to_enem_score (__init__ None None) 0.0 = 500)
    by (unfold to_enem_score; simpl; lra).
  repeat split; try lra; try exact round_zero.
  rewrite Hn. unfold recomendacao.
  destruct (Rge_dec 500 900); [lra|]. destruct (Rge_dec 500 800); [lra|].
  reflexivity.
Qed.

Lemma calcular_tri_failed_optimisation_witness :
  exists (theta nota : R) (analise : analysis),
    calcular_tri minimize_gives_up [1; 0]%Z [1.5; 1.2] [-2; -1] [0.2; 0.2]
    = Ok (theta, nota, analise)
    /\ theta = 0 /\ nota = 500
    /\ recomendacao nota = st_warning
    /\ total_acertos analise = 1%Z
    /\ theta_estimado analise = 0
    /\ coerencia analise = coherence_label 0.0 [1; 0]%Z [-2; -1].
Proof.
  apply (calcular_tri_failed_optimisation minimize_gives_up [1; 0]%Z
           [1.5; 1.2] [-2; -1] [0.2; 0.2]
           {| x := [0.0]; success := false |});
    reflexivity.
Defined.

(** X16. The recommendation follows the ability through the default
    scale: the congratulation box is shown from an ability of 4 and not
    below 3.9999, the on-the-right-track box between 3 and 3.9999 and not
    outside 2.9999 to 4, and the room-for-improvement box up to 2.9999 and
    not from 3. *)
Theorem recomendacao_by_ability (theta : R) :
  let nota_enem := to_enem_score (__init__ None None) theta in
  (4 <= theta -> recomendacao nota_enem = st_success)
  /\ (3 <= theta <= 3.9999 -> recomendacao nota_enem = st_info)
  /\ (theta <= 2.9999 -> recomendacao nota_enem = st_warning)
  /\ (recomendacao nota_enem = st_success -> 3.9999 < theta)
  /\ (recomendacao nota_enem = st_info -> 2.9999 < theta < 4)
  /\ (recomendacao nota_enem = st_warning -> theta < 3).
Proof.
  cbv zeta. unfold recomendacao, to_enem_score. simpl.
  destruct (Rge_dec (500 + 100 * theta) 900);
    [|destruct (Rge_dec (500 + 100 * theta) 800)];
    repeat split; intros; try discriminate; try reflexivity; lra.
Qed.

(** * The data loader *)

Lemma lowest_generator_spec : GeneratorSpec lowest_generator.
Proof.
  constructor; simpl; intros; try apply repeat_length.
  - apply Forall_forall. intros v Hv. apply repeat_spec in Hv. subst. lra.
  - lra.
  - apply Forall_forall. intros v Hv. apply repeat_spec in Hv. subst. lia.
Qed.

Lemma clip_in_range (l : list R) (lo hi : R) :
  lo <= hi -> Forall (fun v => lo <= v <= hi) (np.clip l lo hi).
Proof.
  intros H. unfold np.clip. apply Forall_map, Forall_forall.
  intros v _. now apply clip1_in_range.
Qed.

Lemma DataFrame_same_length (ids : list Z) (a b c : list R) :
  length ids = length a -> length a = length b -> length b = length c ->
  DataFrame ids a b c
  = Ok {| item_id := ids; col_a := a; col_b := b; col_c := c |}.
Proof.
  intros H1 H2 H3. unfold DataFrame.
  now rewrite H1, H2, H3, !Nat.eqb_refl.
Qed.

(** The frame [gerar_parametros_realistas] returns, once the generator is
    in the state [st0] the seeding left. *)
Lemma gerar_parametros_realistas_draws (G : Generator) (n : nat)
      (st0 : rng G) :
  GeneratorSpec G ->
  let a := fst (normal G 1.4 0.4 n st0) in
  let st1 := snd (normal G 1.4 0.4 n st0) in
  let b := fst (normal G 0 1.2 n st1) in
  let st2 := snd (normal G 0 1.2 n st1) in
  let c := fst (uniform G 0.15 0.25 n st2) in
  let st3 := snd (uniform G 0.15 0.25 n st2) in
  forall seed st,
    match seed with
    | Some s => if (s =? 0)%Z then Ok st else np_random_seed G s st
    | None => Ok st
    end = Ok st0 ->
    gerar_parametros_realistas G (Some n) seed st
    = Ok ({| item_id := range_from_1 n;
             col_a := np.clip a 0.5 3.0;
             col_b := np.clip b (-3) 3;
             col_c := c |}, st3).
Proof.
  intros HG a st1 b st2 c st3 seed st Hseed.
  unfold gerar_parametros_realistas. rewrite Hseed. cbn [bind].
  pose proof (normal_length G HG 1.4 0.4 n st0) as Ha.
  pose proof (normal_length G HG 0 1.2 n st1) as Hb.
  pose proof (uniform_length G HG 0.15 0.25 n st2) as Hc.
  fold a in Ha. fold b in Hb. fold c in Hc.
  subst a st1 b st2 c st3.
  destruct (normal G 1.4 0.4 n st0) as [a st1]. cbn [fst snd] in *.
  destruct (normal G 0 1.2 n st1) as [b st2]. cbn [fst snd] in *.
  destruct (uniform G 0.15 0.25 n st2) as [c st3]. cbn [fst snd] in *.
  rewrite DataFrame_same_length; [reflexivity| | |].
  - unfold range_from_1, np.clip. rewrite !length_map, length_seq. lia.
  - unfold np.clip. rewrite !length_map. lia.
  - unfold np.clip. rewrite !length_map. lia.
Qed.

(** What [gerar_parametros_realistas] returns on a usable seed. *)
Lemma gerar_parametros_realistas_outcome (G : Generator)
      (num_itens : option nat) (seed : option Z) (st : rng G) :
  GeneratorSpec G ->
  match seed with
  | Some s => (0 <= s < 2 ^ 32)%Z
  | None => True
  end ->
  let n := match num_itens with Some k => k | None => 180%nat end in
  exists (df : ParamsFrame) (st' : rng G),
    gerar_parametros_realistas G num_itens seed st = Ok (df, st')
    /\ item_id df = map Z.of_nat (seq 1 n)
    /\ length (col_a df) = n /\ length (col_b df) = n
    /\ length (col_c df) = n
    /\ Forall (fun v => 0.5 <= v <= 3) (col_a df)
    /\ Forall (fun v => -3 <= v <= 3) (col_b df)
    /\ Forall (fun v => 0.15 <= v < 0.25) (col_c df).
Proof.
  intros HG Hseed n.
  assert (Hst : exists st0,
             match seed with
             | Some s => if (s =? 0)%Z then Ok st else np_random_seed G s st
             | None => Ok st
             end = Ok st0).
  { destruct seed as [s|]; [|now exists st].
    destruct (s =? 0)%Z; [now exists st|].
    unfold np_random_seed.
    destruct (Z.leb_spec 0 s); [|lia]. destruct (Z.ltb_spec s (2 ^ 32)); [|lia].
    now eexists. }
  destruct Hst as [st0 Hst].
  assert (Hrun : gerar_parametros_realistas G num_itens seed st
                 = gerar_parametros_realistas G (Some n) seed st)
    by (destruct num_itens; reflexivity).
  rewrite Hrun.
  rewrite (gerar_parametros_realistas_draws G n st0 HG seed st Hst).
  do 2 eexists. split; [reflexivity|]. cbn [item_id col_a col_b col_c].
  repeat split.
  - unfold np.clip. rewrite length_map. apply (normal_length G HG).
  - unfold np.clip. rewrite length_map. apply (normal_length G HG).
  - apply (uniform_length G HG).
  - replace 3 with 3.0 by lra. apply clip_in_range. lra.
  - apply clip_in_range. lra.
  - apply (uniform_range G HG). lra.
Qed.

(** X17. With a seed that is absent or between 0 and [2^32 - 1],
    [gerar_parametros_realistas] returns a frame of [num_itens] rows (180
    when no number is given) whose identifiers are 1, 2, ..., whose
    discriminations lie within [[0.5, 3]], whose difficulties lie within
    [[-3, 3]] and whose guessing floors lie within [[0.15, 0.25)],
    whatever the generator draws. *)
Theorem gerar_parametros_realistas_ranges (G : Generator)
        (num_itens : option nat) (seed : option Z) (st : rng G) :
  GeneratorSpec G ->
  match seed with
  | Some s => (0 <= s < 2 ^ 32)%Z
  | None => True
  end ->
  let n := match num_itens with Some k => k | None => 180%nat end in
  exists (df : ParamsFrame) (st' : rng G),
    gerar_parametros_realistas G num_itens seed st = Ok (df, st')
    /\ item_id df = map Z.of_nat (seq 1 n)
    /\ length (col_a df) = n /\ length (col_b df) = n
    /\ length (col_c df) = n
    /\ Forall (fun v => 0.5 <= v <= 3) (col_a df)
    /\ Forall (fun v => -3 <= v <= 3) (col_b df)
    /\ Forall (fun v => 0.15 <= v < 0.25) (col_c df).
Proof. exact (gerar_parametros_realistas_outcome G num_itens seed st). Qed.

Lemma gerar_parametros_realistas_ranges_witness :
  exists (df : ParamsFrame) (st' : rng lowest_generator),
    gerar_parametros_realistas lowest_generator (Some 3%nat) (Some 42%Z) 0%nat
    = Ok (df, st')
    /\ item_id df = [1; 2; 3]%Z
    /\ length (col_a df) = 3%nat /\ length (col_b df) = 3%nat
    /\ length (col_c df) = 3%nat
    /\ Forall (fun v => 0.5 <= v <= 3) (col_a df)
    /\ Forall (fun v => -3 <= v <= 3) (col_b df)
    /\ Forall (fun v => 0.15 <= v < 0.25) (col_c df).
Proof.
  apply (gerar_parametros_realistas_ranges lowest_generator (Some 3%nat)
           (Some 42%Z) 0%nat lowest_generator_spec).
  lia.
Defined.

(** X18. A seed between 1 and [2^32 - 1] makes the call reproducible: the
    outcome does not depend on the state the generator was in.  The seed 0
    does not: it is ignored as an absent seed is, and the outcome is the one
    of the call without a seed. *)
Theorem gerar_parametros_realistas_seed (G : Generator)
        (num_itens : option nat) (s : Z) (st st' : rng G) :
  (0 < s < 2 ^ 32)%Z ->
  gerar_parametros_realistas G num_itens (Some s) st
  = gerar_parametros_realistas G num_itens (Some s) st'
  /\ gerar_parametros_realistas G num_itens (Some 0%Z) st
     = gerar_parametros_realistas G num_itens None st.
Proof.
  intros Hs. split; [|reflexivity].
  unfold gerar_parametros_realistas, np_random_seed.
  destruct (Z.eqb_spec s 0); [lia|].
  destruct (Z.leb_spec 0 s); [|lia]. destruct (Z.ltb_spec s (2 ^ 32)); [|lia].
  reflexivity.
Qed.

Lemma gerar_parametros_realistas_seed_witness :
  gerar_parametros_realistas lowest_generator (Some 3%nat) (Some 42%Z) 0%nat
  = gerar_parametros_realistas lowest_generator (Some 3%nat) (Some 42%Z) 7%nat
  /\ gerar_parametros_realistas lowest_generator (Some 3%nat) (Some 0%Z) 0%nat
     = gerar_parametros_realistas lowest_generator (Some 3%nat) None 0%nat.
Proof.
  apply (gerar_parametros_realistas_seed lowest_generator (Some 3%nat) 42
                                         0%nat 7%nat).
  lia.
Defined.

Lemma seed_42 (G : Generator) (st : rng G) :
  np_random_seed G 42 st = Ok (seeded G 42).
Proof. reflexivity. Qed.

Lemma simular_respostas_binary (G : Generator) (theta : R)
      (rows : list (R * R * R)) (st : rng G) :
  length (fst (simular_respostas G theta rows st)) = length rows
  /\ Forall (fun ri => ri = 0%Z \/ ri = 1%Z)
            (fst (simular_respostas G theta rows st)).
Proof.
  revert st. induction rows as [|[[a b] c] rows IH]; intros st; simpl.
  - split; [reflexivity|constructor].
  - destruct (random G st) as [u st1].
    specialize (IH st1).
    destruct (simular_respostas G theta rows st1) as [rs st2].
    cbn [fst length] in *. destruct IH as [IHl IHb]. split; [lia|].
    constructor; [|exact IHb].
    destruct (Rlt_dec _ _); [now right|now left].
Qed.

Lemma length_iterrows (p : ParamsFrame) :
  length (col_a p) = length (col_b p) ->
  length (col_b p) = length (col_c p) ->
  length (iterrows p) = length (col_a p).
Proof.
  intros H1 H2. unfold iterrows. rewrite !length_combine. lia.
Qed.

(** The two example generators, run from any states. *)
Lemma exemplos_outcome (G : Generator) (num_itens : option nat)
      (st st' : rng G) :
  GeneratorSpec G ->
  let n := match num_itens with Some k => k | None => 45%nat end in
  exists (r1 r2 : list Z) (p : ParamsFrame) (s1 s2 : rng G),
    gerar_exemplo_aluno_coerente G num_itens st = Ok (r1, p, s1)
    /\ gerar_exemplo_aluno_incoerente G num_itens st' = Ok (r2, p, s2)
    /\ length r1 = n /\ length r2 = n
    /\ Forall (fun ri => ri = 0%Z \/ ri = 1%Z) r1
    /\ Forall (fun ri => ri = 0%Z \/ ri = 1%Z) r2
    /\ length (col_a p) = n /\ length (col_b p) = n /\ length (col_c p) = n
    /\ Forall (fun v => 0.5 <= v <= 3) (col_a p)
    /\ Forall (fun v => -3 <= v <= 3) (col_b p)
    /\ Forall (fun v => 0.15 <= v < 0.25) (col_c p).
Proof.
  intros HG n.
  unfold gerar_exemplo_aluno_coerente, gerar_exemplo_aluno_incoerente.
  fold n. rewrite !seed_42. cbn [bind].
  rewrite (gerar_parametros_realistas_draws G n (seeded G 42) HG
             (Some 42%Z) (seeded G 42) eq_refl).
  cbn [bind].
  set (p := {| item_id := range_from_1 n |}).
  set (s3 := snd (uniform G 0.15 0.25 n _)).
  assert (Ha : length (col_a p) = n)
    by (unfold p, np.clip; cbn [col_a]; rewrite length_map;
        apply (normal_length G HG)).
  assert (Hb : length (col_b p) = n)
    by (unfold p, np.clip; cbn [col_b]; rewrite length_map;
        apply (normal_length G HG)).
  assert (Hc : length (col_c p) = n)
    by (unfold p; cbn [col_c]; apply (uniform_length G HG)).
  pose proof (simular_respostas_binary G 0.5 (iterrows p) s3) as [Hl1 Hb1].
  rewrite length_iterrows in Hl1 by congruence.
  destruct (simular_respostas G 0.5 (iterrows p) s3) as [r1 s1].
  pose proof (randint_length G HG 0 2 n s3) as Hl2.
  pose proof (randint_range G HG 0 2 n s3 ltac:(lia)) as Hb2.
  destruct (randint G 0 2 n s3) as [r2 s2].
  cbn [fst] in *.
  exists r1, r2, p, s1, s2.
  repeat split; try reflexivity; try congruence; try assumption.
  - eapply Forall_impl; [|exact Hb2]. cbv beta. intros v Hv. lia.
  - unfold p. cbn [col_a]. replace 3 with 3.0 by lra.
    apply clip_in_range. lra.
  - unfold p. cbn [col_b]. apply clip_in_range. lra.
  - unfold p. cbn [col_c]. apply (uniform_range G HG). lra.
Qed.

(** X19. The two example generators return the same item parameters,
    whatever state the generator was in before either call: both reseed
    with 42 before drawing them.  Each returns one binary response per
    item. *)
Theorem exemplos_share_parametros (G : Generator) (num_itens : option nat)
        (st st' : rng G) :
  GeneratorSpec G ->
  let n := match num_itens with Some k => k | None => 45%nat end in
  exists (r1 r2 : list Z) (p : ParamsFrame) (s1 s2 : rng G),
    gerar_exemplo_aluno_coerente G num_itens st = Ok (r1, p, s1)
    /\ gerar_exemplo_aluno_incoerente G num_itens st' = Ok (r2, p, s2)
    /\ length r1 = n /\ length r2 = n
    /\ Forall (fun ri => ri = 0%Z \/ ri = 1%Z) r1
    /\ Forall (fun ri => ri = 0%Z \/ ri = 1%Z) r2.
Proof.
  intros HG n.
  destruct (exemplos_outcome G num_itens st st' HG)
    as (r1 & r2 & p & s1 & s2 & H1 & H2 & H3 & H4 & H5 & H6 & _).
  exists r1, r2, p, s1, s2. repeat split; assumption.
Qed.

Lemma exemplos_share_parametros_witness :
  exists (r1 r2 : list Z) (p : ParamsFrame) (s1 s2 : rng lowest_generator),
    gerar_exemplo_aluno_coerente lowest_generator (Some 4%nat) 0%nat
    = Ok (r1, p, s1)
    /\ gerar_exemplo_aluno_incoerente lowest_generator (Some 4%nat) 9%nat
       = Ok (r2, p, s2)
    /\ length r1 = 4%nat /\ length r2 = 4%nat
    /\ Forall (fun ri => ri = 0%Z \/ ri = 1%Z) r1
    /\ Forall (fun ri => ri = 0%Z \/ ri = 1%Z) r2.
Proof.
  apply (exemplos_share_parametros lowest_generator (Some 4%nat) 0%nat 9%nat
                                   lowest_generator_spec).
Defined.

(** Items within the ranges of the loader need no clipping, for abilities
    up to 3. *)
Lemma loader_ranges_unclipped (theta : R) (a b c : list R) :
  theta <= 3 ->
  length a = length b -> length b = length c ->
  Forall (fun v => 0.5 <= v <= 3) a ->
  Forall (fun v => -3 <= v <= 3) b ->
  Forall (fun v => 0.15 <= v < 0.25) c ->
  Forall (unclipped_item theta) (combine a (combine b c)).
Proof.
  intros Ht. revert b c.
  induction a as [|a0 a IH]; intros [|b0 b] [|c0 c] Hab Hbc Ha Hb Hc;
    simpl in *; try discriminate; constructor.
  - inversion Ha; inversion Hb; inversion Hc; subst.
    unfold unclipped_item. cbn [fst snd]. split; [lra|].
    destruct (Rle_dec theta b0); nra.
  - inversion Ha; inversion Hb; inversion Hc; subst.
    apply IH; try assumption; lia.
Qed.

(** X20. On the parameters [gerar_parametros_realistas] returns, the
    clipping of [log_posterior] changes nothing for abilities up to 3: the
    probabilities that enter the logarithms are the 3PL probabilities. *)
Theorem gerar_parametros_realistas_unclipped (G : Generator)
        (num_itens : option nat) (seed : option Z) (st : rng G)
        (self : TRIEngine) (theta : R) :
  GeneratorSpec G ->
  match seed with
  | Some s => (0 <= s < 2 ^ 32)%Z
  | None => True
  end ->
  theta <= 3 ->
  exists (df : ParamsFrame) (st' : rng G),
    gerar_parametros_realistas G num_itens seed st = Ok (df, st')
    /\ clipped_p self theta (col_a df) (col_b df) (col_c df)
       = Ok (map3 (logistic_3pl self theta)
                  (col_a df) (col_b df) (col_c df)).
Proof.
  intros HG Hseed Ht.
  pose proof (gerar_parametros_realistas_outcome G num_itens seed st
                HG Hseed) as Hout.
  cbv zeta in Hout.
  destruct Hout as (df & st' & Hrun & _ & Ha & Hb & Hc & Hra & Hrb & Hrc).
  exists df, st'. split; [exact Hrun|].
  assert (Hab : length (col_a df) = length (col_b df)) by (now rewrite Ha, Hb).
  assert (Hbc : length (col_b df) = length (col_c df)) by (now rewrite Hb, Hc).
  rewrite clipped_p_eq by assumption. f_equal.
  pose proof (loader_ranges_unclipped theta _ _ _ Ht Hab Hbc Hra Hrb Hrc)
    as Hun.
  clear - Hun. unfold np.clip.
  revert Hun. generalize (col_b df), (col_c df).
  induction (col_a df) as [|a0 a IH]; intros [|b0 b] [|c0 c] Hun;
    simpl in *; try reflexivity.
  inversion Hun as [|? ? H0 Hrest]; subst.
  rewrite clip1_logistic_3pl_unclipped by exact H0.
  f_equal. now apply IH.
Qed.

Lemma gerar_parametros_realistas_unclipped_witness :
  exists (df : ParamsFrame) (st' : rng lowest_generator),
    gerar_parametros_realistas lowest_generator (Some 3%nat) (Some 42%Z) 0%nat
    = Ok (df, st')
    /\ clipped_p (__init__ None None) 2.5 (col_a df) (col_b df) (col_c df)
       = Ok (map3 (logistic_3pl (__init__ None None) 2.5)
                  (col_a df) (col_b df) (col_c df)).
Proof.
  apply (gerar_parametros_realistas_unclipped lowest_generator (Some 3%nat)
           (Some 42%Z) 0%nat (__init__ None None) 2.5 lowest_generator_spec);
    [lia | lra].
Defined.

(** The engine accepts what the coherent-example generator returns:
    for every ability [log_posterior] returns a value on its responses and
    parameters, and [analyze_consistency] returns a record that counts its
    correct responses. *)
Theorem exemplo_coerente_accepted (G : Generator) (num_itens : option nat)
        (st : rng G) (self : TRIEngine) (theta : R) :
  GeneratorSpec G ->
  exists (r : list Z) (p : ParamsFrame) (s : rng G),
    gerar_exemplo_aluno_coerente G num_itens st = Ok (r, p, s)
    /\ (exists v, log_posterior self theta r (col_a p) (col_b p) (col_c p)
                  = Ok v)
    /\ (exists rec, analyze_consistency self theta r (col_b p) = Ok rec
                    /\ total_acertos rec = np.isum r).
Proof.
  intros HG.
  pose proof (exemplos_outcome G num_itens st st HG) as Hout.
  cbv zeta in Hout.
  destruct Hout
    as (r & _ & p & s & _ & Hrun & _ & Hr & _ & _ & _ & Ha & Hb & Hc & _).
  assert (Hra : length r = length (col_a p)) by (now rewrite Hr, Ha).
  assert (Hab : length (col_a p) = length (col_b p)) by (now rewrite Ha, Hb).
  assert (Hbc : length (col_b p) = length (col_c p)) by (now rewrite Hb, Hc).
  assert (Hrb : length r = length (col_b p)) by (now rewrite Hr, Hb).
  exists r, p, s. split; [exact Hrun|]. split.
  - eexists. now apply log_posterior_sum.
  - eexists. split.
    + rewrite analyze_consistency_skip_sort by exact Hrb.
      apply analyze_consistency_nosort_eq. exact Hrb.
    + reflexivity.
Qed.

Lemma exemplo_coerente_accepted_witness :
  exists (r : list Z) (p : ParamsFrame) (s : rng lowest_generator),
    gerar_exemplo_aluno_coerente lowest_generator (Some 4%nat) 0%nat
    = Ok (r, p, s)
    /\ (exists v, log_posterior (__init__ None None) 0.5 r
                                (col_a p) (col_b p) (col_c p) = Ok v)
    /\ (exists rec, analyze_consistency (__init__ None None) 0.5 r (col_b p)
                    = Ok rec
                    /\ total_acertos rec = np.isum r).
Proof.
  apply (exemplo_coerente_accepted lowest_generator (Some 4%nat) 0%nat
           (__init__ None None) 0.5 lowest_generator_spec).
Defined.

(** ** Frames read from a file *)

Lemma has_column_In {cell : Type} (df : Frame cell) (label : string) :
  has_column df label = true <-> In label (columns df).
Proof.
  unfold has_column. rewrite existsb_exists. split.
  - intros [x [Hin Heq]]. apply String.eqb_eq in Heq. now subst.
  - intros Hin. exists label. split; [exact Hin|apply String.eqb_refl].
Qed.

Lemma columns_rename {cell : Type} (m : list (string * string))
      (df : Frame cell) :
  columns (rename m df) = map (rename_label m) (columns df).
Proof. unfold columns, rename. now rewrite !map_map. Qed.

(** Which labels the mapping of [carregar_csv] sends to a short name. *)
Lemma rename_label_short (label : string) :
  (rename_label mapeamento label = "a"%string
   <-> label = "a"%string \/ label = "discriminacao"%string)
  /\ (rename_label mapeamento label = "b"%string
      <-> label = "b"%string \/ label = "dificuldade"%string)
  /\ (rename_label mapeamento label = "c"%string
      <-> label = "c"%string \/ label = "acerto_casual"%string).
Proof.
  unfold rename_label, mapeamento, lookup.
  destruct (String.eqb_spec "discriminacao" label) as [<-|H1].
  { repeat split; intros H; try discriminate; try tauto;
      destruct H; discriminate. }
  destruct (String.eqb_spec "dificuldade" label) as [<-|H2].
  { repeat split; intros H; try discriminate; try tauto;
      destruct H; discriminate. }
  destruct (String.eqb_spec "acerto_casual" label) as [<-|H3].
  { repeat split; intros H; try discriminate; try tauto;
      destruct H; discriminate. }
  repeat split; intros H; try tauto; destruct H; congruence.
Qed.

Lemma renamed_column_present {cell : Type} (df : Frame cell)
      (short long : string) :
  (forall label, rename_label mapeamento label = short
                 <-> label = short \/ label = long) ->
  has_column (rename mapeamento df) short = true
  <-> In short (columns df) \/ In long (columns df).
Proof.
  intros Hmap. rewrite has_column_In, columns_rename, in_map_iff. split.
  - intros [label [Heq Hin]]. apply Hmap in Heq.
    destruct Heq as [-> | ->]; [now left|now right].
  - intros [Hin|Hin]; eexists; (split; [|exact Hin]); apply Hmap; tauto.
Qed.

(** X21. [carregar_csv] returns a frame exactly when the file was read and
    has, for each of a, b and c, a column under the short name or under the
    long one (discriminacao, dificuldade, acerto_casual); when the file was
    read and one of the three is missing under both names, it raises its
    [ValueError]. *)
Theorem carregar_csv_accepts {cell : Type}
        (read_csv : string -> option (Frame cell)) (caminho : string)
        (df : Frame cell) :
  read_csv caminho = Some df ->
  let present :=
    (In "a"%string (columns df) \/ In "discriminacao"%string (columns df))
    /\ (In "b"%string (columns df) \/ In "dificuldade"%string (columns df))
    /\ (In "c"%string (columns df)
        \/ In "acerto_casual"%string (columns df)) in
  (present <-> exists out, carregar_csv read_csv caminho = inr out)
  /\ (~ present -> carregar_csv read_csv caminho = inl ColunasAusentes).
Proof.
  intros Hread. cbv zeta. unfold carregar_csv. rewrite Hread.
  pose proof (renamed_column_present df "a" "discriminacao"
                (fun l => proj1 (rename_label_short l))) as Ha.
  pose proof (renamed_column_present df "b" "dificuldade"
                (fun l => proj1 (proj2 (rename_label_short l)))) as Hb.
  pose proof (renamed_column_present df "c" "acerto_casual"
                (fun l => proj2 (proj2 (rename_label_short l)))) as Hc.
  unfold colunas_necessarias. cbn [forallb].
  destruct (has_column (rename mapeamento df) "a");
    destruct (has_column (rename mapeamento df) "b");
    destruct (has_column (rename mapeamento df) "c"); cbn [andb];
    (split; [split|]);
    try (intros _; eexists; reflexivity);
    try (intros [out Hout]; discriminate);
    try (intros; reflexivity);
    try (intros; intuition congruence).
Qed.

Lemma carregar_csv_accepts_witness :
  exists out,
    carregar_csv (fun _ => Some frame_nomes_longos) "itens.csv" = inr out.
Proof.
  apply (proj1 (carregar_csv_accepts (fun _ => Some frame_nomes_longos)
                  "itens.csv"%string frame_nomes_longos eq_refl)).
  unfold frame_nomes_longos. simpl. tauto.
Defined.

Lemma filter_label_unique {cell : Type} (df : Frame cell) (label : string) :
  NoDup (columns df) -> In label (columns df) ->
  exists cells, In (label, cells) df
                /\ filter (fun col => String.eqb (fst col) label) df
                   = [(label, cells)].
Proof.
  unfold columns. induction df as [|[l d] df IH]; intros Hnd Hin;
    [contradiction|].
  cbn [map fst] in *. inversion Hnd as [|? ? Hnot Hnd']; subst.
  cbn [filter fst]. destruct (String.eqb_spec l label) as [->|Hne].
  - exists d. split; [now left|]. f_equal.
    clear - Hnot. induction df as [|[l' d'] df IH]; [reflexivity|].
    cbn [map fst filter] in *.
    destruct (String.eqb_spec l' label) as [->|_].
    + exfalso. apply Hnot. now left.
    + apply IH. intros H. apply Hnot. now right.
  - destruct Hin as [Heq|Hin]; [contradiction|].
    destruct (IH Hnd' Hin) as [cells [Hc Hf]].
    exists cells. split; [now right|exact Hf].
Qed.

Lemma in_rename {cell : Type} (df : Frame cell) (label : string)
      (cells : list cell) :
  In (label, cells) (rename mapeamento df) ->
  exists label0, In (label0, cells) df
                 /\ rename_label mapeamento label0 = label.
Proof.
  unfold rename. rewrite in_map_iff. intros [[l d] [Heq Hin]].
  cbn [fst snd] in Heq. inversion Heq; subst. now exists l.
Qed.

(** X22. When no two columns of the file end under one name, the frame
    [carregar_csv] returns has exactly the three columns a, b, c, in this
    order whatever their order in the file; each holds the cells of the
    file's column of that short or long name, and the other columns of the
    file are dropped. *)
Theorem carregar_csv_three_columns {cell : Type}
        (read_csv : string -> option (Frame cell)) (caminho : string)
        (df out : Frame cell) :
  read_csv caminho = Some df ->
  NoDup (map (rename_label mapeamento) (columns df)) ->
  carregar_csv read_csv caminho = inr out ->
  exists (la lb lc : string) (da db dc : list cell),
    out = [("a"%string, da); ("b"%string, db); ("c"%string, dc)]
    /\ In (la, da) df /\ (la = "a"%string \/ la = "discriminacao"%string)
    /\ In (lb, db) df /\ (lb = "b"%string \/ lb = "dificuldade"%string)
    /\ In (lc, dc) df /\ (lc = "c"%string \/ lc = "acerto_casual"%string).
Proof.
  intros Hread Hnd Hload. unfold carregar_csv in Hload.
  rewrite Hread in Hload. rewrite <- columns_rename in Hnd.
  unfold colunas_necessarias in Hload. cbn [forallb] in Hload.
  destruct (has_column (rename mapeamento df) "a") eqn:Ha;
    [|discriminate].
  destruct (has_column (rename mapeamento df) "b") eqn:Hb;
    [|discriminate].
  destruct (has_column (rename mapeamento df) "c") eqn:Hc;
    [|discriminate].
  cbn [andb] in Hload. inversion Hload as [Hout]. clear Hload.
  apply has_column_In in Ha, Hb, Hc.
  destruct (filter_label_unique _ _ Hnd Ha) as [da [Hia Hfa]].
  destruct (filter_label_unique _ _ Hnd Hb) as [db [Hib Hfb]].
  destruct (filter_label_unique _ _ Hnd Hc) as [dc [Hic Hfc]].
  apply in_rename in Hia, Hib, Hic.
  destruct Hia as [la [Hia Hla]]. destruct Hib as [lb [Hib Hlb]].
  destruct Hic as [lc [Hic Hlc]].
  exists la, lb, lc, da, db, dc.
  unfold getitem. cbn [flat_map]. rewrite Hfa, Hfb, Hfc. cbn [app].
  repeat split; try assumption.
  - now apply (proj1 (rename_label_short la)).
  - now apply (proj1 (proj2 (rename_label_short lb))).
  - now apply (proj2 (proj2 (rename_label_short lc))).
Qed.

Lemma carregar_csv_three_columns_witness :
  exists (la lb lc : string) (da db dc : list R),
    [("a"%string, [1.5; 1.2]); ("b"%string, [-2; 0]);
     ("c"%string, [0.2; 0.2])]
    = [("a"%string, da); ("b"%string, db); ("c"%string, dc)]
    /\ In (la, da) frame_nomes_longos
    /\ (la = "a"%string \/ la = "discriminacao"%string)
    /\ In (lb, db) frame_nomes_longos
    /\ (lb = "b"%string \/ lb = "dificuldade"%string)
    /\ In (lc, dc) frame_nomes_longos
    /\ (lc = "c"%string \/ lc = "acerto_casual"%string).
Proof.
  apply (carregar_csv_three_columns (fun _ => Some frame_nomes_longos)
           "itens.csv"%string frame_nomes_longos
           [("a"%string, [1.5; 1.2]); ("b"%string, [-2; 0]);
            ("c"%string, [0.2; 0.2])] eq_refl).
  - unfold frame_nomes_longos. simpl.
    repeat (constructor; [simpl; intuition discriminate|]). constructor.
  - reflexivity.
Defined.

Lemma length_filter_map {A B : Type} (g : A -> B) (f : B -> bool)
      (l : list A) :
  length (filter f (map g l)) = length (filter (fun v => f (g v)) l).
Proof.
  induction l as [|v l IH]; [reflexivity|].
  cbn [map filter]. destruct (f (g v)); cbn [length]; now rewrite IH.
Qed.

Lemma length_getitem_necessarias {cell : Type} (df : Frame cell) :
  length (getitem df colunas_necessarias)
  = length (filter (fun col =>
                      existsb (String.eqb (fst col)) colunas_necessarias)
                   df).
Proof.
  unfold getitem, colunas_necessarias. cbn [flat_map existsb].
  rewrite !length_app. cbn [length].
  induction df as [|[l d] df IH]; [reflexivity|].
  cbn [filter fst].
  destruct (String.eqb_spec l "a") as [Ea|Ea];
    destruct (String.eqb_spec l "b") as [Eb|Eb];
    destruct (String.eqb_spec l "c") as [Ec|Ec];
    cbn [orb length]; try congruence; lia.
Qed.

(** X23. The frame returned holds one column for every column of the file
    whose name, short or long, is asked for: a file that carries a parameter
    under both its names yields more than three columns, two of them under
    the same short name. *)
Theorem carregar_csv_column_count {cell : Type}
        (read_csv : string -> option (Frame cell)) (caminho : string)
        (df out : Frame cell) :
  read_csv caminho = Some df ->
  carregar_csv read_csv caminho = inr out ->
  length out
  = length (filter (fun col =>
                      existsb (String.eqb (rename_label mapeamento (fst col)))
                              colunas_necessarias)
                   df).
Proof.
  intros Hread Hload. unfold carregar_csv in Hload. rewrite Hread in Hload.
  destruct (forallb _ _); [|discriminate].
  assert (Hout : out = getitem (rename mapeamento df) colunas_necessarias)
    by congruence.
  rewrite Hout, length_getitem_necessarias. unfold rename.
  now rewrite length_filter_map.
Qed.

Lemma carregar_csv_column_count_witness :
  length [("a"%string, [1.5; 1.2]); ("a"%string, [1; 1]);
          ("b"%string, [-2; 0]); ("c"%string, [0.2; 0.2])]
  = length (filter (fun col =>
                      existsb (String.eqb (rename_label mapeamento (fst col)))
                              colunas_necessarias)
                   frame_nomes_duplos).
Proof.
  apply (carregar_csv_column_count (fun _ => Some frame_nomes_duplos)
           "itens.csv"%string frame_nomes_duplos
           [("a"%string, [1.5; 1.2]); ("a"%string, [1; 1]);
            ("b"%string, [-2; 0]); ("c"%string, [0.2; 0.2])]);
    reflexivity.
Defined.

(** X24. The upload of the application tests the labels as they are in the
    file, without the renaming of the loader: every file it accepts the
    loader accepts, but it refuses a file as soon as one of a, b, c is
    absent under its short name, also when the long name is there. *)
Theorem app_upload_short_names_only {cell : Type}
        (read_csv : string -> option (Frame cell)) (caminho : string)
        (df : Frame cell) :
  read_csv caminho = Some df ->
  (app_colunas_validas df = true ->
   exists out, carregar_csv read_csv caminho = inr out)
  /\ (app_colunas_validas df = true
      <-> In "a"%string (columns df) /\ In "b"%string (columns df)
          /\ In "c"%string (columns df)).
Proof.
  intros Hread.
  assert (Happ : app_colunas_validas df = true
                 <-> In "a"%string (columns df) /\ In "b"%string (columns df)
                     /\ In "c"%string (columns df)).
  { unfold app_colunas_validas, colunas_necessarias. cbn [forallb].
    rewrite !andb_true_iff, !has_column_In. tauto. }
  split; [|exact Happ].
  intros Hok. apply Happ in Hok. destruct Hok as (Ha & Hb & Hc).
  unfold carregar_csv. rewrite Hread.
  pose proof (renamed_column_present df "a" "discriminacao"
                (fun l => proj1 (rename_label_short l))) as Ra.
  pose proof (renamed_column_present df "b" "dificuldade"
                (fun l => proj1 (proj2 (rename_label_short l)))) as Rb.
  pose proof (renamed_column_present df "c" "acerto_casual"
                (fun l => proj2 (proj2 (rename_label_short l)))) as Rc.
  unfold colunas_necessarias. cbn [forallb].
  rewrite (proj2 Ra (or_introl Ha)), (proj2 Rb (or_introl Hb)),
    (proj2 Rc (or_introl Hc)).
  cbn [andb]. eexists. reflexivity.
Qed.

Lemma app_upload_short_names_only_witness :
  app_colunas_validas frame_nomes_longos = false
  /\ exists out,
      carregar_csv (fun _ => Some frame_nomes_longos) "itens.csv" = inr out.
Proof.
  pose proof (app_upload_short_names_only
                (fun _ => Some frame_nomes_longos) "itens.csv"%string
                frame_nomes_longos eq_refl) as [_ Happ].
  split.
  - destruct (app_colunas_validas frame_nomes_longos) eqn:E; [|reflexivity].
    exfalso. destruct (proj1 Happ eq_refl) as [Ha _].
    unfold frame_nomes_longos in Ha. simpl in Ha. intuition discriminate.
  - eexists. reflexivity.
Defined.

(** * The responses typed in the application *)

Lemma ascii_digit_facts (py : Interpreter) (d : N) :
  (d < 10)%N ->
  isspace (48 + d) = false
  /\ (48 + d =? comma)%N = false
  /\ (48 + d =? underscore)%N = false
  /\ (48 + d =? minus_sign)%N = false
  /\ (48 + d =? plus_sign)%N = false
  /\ digit_value py (48 + d) = Some d.
Proof.
  intros Hd.
  assert (H : (d = 0 \/ d = 1 \/ d = 2 \/ d = 3 \/ d = 4 \/ d = 5 \/ d = 6
               \/ d = 7 \/ d = 8 \/ d = 9)%N) by lia.
  repeat (destruct H as [-> | H]; [repeat split; reflexivity|]).
  subst. repeat split; reflexivity.
Qed.

Lemma binary_digit_char (r : Z) :
  r = 0%Z \/ r = 1%Z ->
  (digit_char r < 58)%N /\ isspace (digit_char r) = false
  /\ exists d, (d < 10)%N /\ digit_char r = (48 + d)%N /\ Z.of_N d = r.
Proof.
  intros [-> | ->]; (split; [reflexivity|]); (split; [reflexivity|]).
  - exists 0%N. repeat split; reflexivity.
  - exists 1%N. repeat split; reflexivity.
Qed.

Lemma replace_commas_separators (sep : pystr) :
  Forall separator sep ->
  Forall (fun ch => isspace ch = true) (replace_commas sep).
Proof.
  intros H. unfold replace_commas. apply Forall_map.
  eapply Forall_impl; [|exact H]. intros ch [-> | Hs]; [reflexivity|].
  destruct (N.eqb_spec ch comma); [reflexivity|exact Hs].
Qed.

Lemma replace_commas_escrever (sep : pystr) (l : list Z) :
  replace_commas (escrever sep l) = escrever (replace_commas sep) l.
Proof.
  assert (Hd : forall r, (if (digit_char r =? comma)%N then space
                          else digit_char r) = digit_char r).
  { intros r. destruct (N.eqb_spec (digit_char r) comma) as [E|]; [|easy].
    unfold digit_char, comma in E. lia. }
  unfold replace_commas. induction l as [|r [|r' l] IH]; [reflexivity| |].
  - cbn [escrever map]. now rewrite Hd.
  - change (escrever sep (r :: r' :: l))
      with (digit_char r :: sep ++ escrever sep (r' :: l)).
    change (escrever (map _ sep) (r :: r' :: l))
      with (digit_char r
              :: map (fun ch => if (ch =? comma)%N then space else ch) sep
              ++ escrever
                   (map (fun ch => if (ch =? comma)%N then space else ch) sep)
                   (r' :: l)).
    cbn [map]. rewrite map_app, Hd, IH. reflexivity.
Qed.

(** Leading whitespace opens no token. *)
Lemma split_from_skip (ws rest : pystr) :
  Forall (fun ch => isspace ch = true) ws ->
  split_from (ws ++ rest) [] = split_from rest [].
Proof.
  induction 1 as [|w ws Hw _ IH]; [reflexivity|].
  cbn [app split_from]. now rewrite Hw.
Qed.

(** A run of characters that are not whitespace is read into the token. *)
Lemma split_from_run (t rest tok : pystr) :
  Forall (fun ch => isspace ch = false) t ->
  split_from (t ++ rest) tok = split_from rest (rev t ++ tok).
Proof.
  intros H. revert tok.
  induction H as [|c t Hc _ IH]; intros tok; [reflexivity|].
  cbn [app split_from]. rewrite Hc, IH. cbn [rev]. now rewrite <- app_assoc.
Qed.

Lemma split_escrever (ws : pystr) (l : list Z) :
  ws <> [] -> Forall (fun ch => isspace ch = true) ws ->
  Forall (fun r => r = 0%Z \/ r = 1%Z) l ->
  split (escrever ws l) = map (fun r => [digit_char r]) l.
Proof.
  intros Hne Hws Hbin. unfold split.
  induction l as [|r [|r' l] IH]; [reflexivity| |].
  - inversion Hbin as [|? ? Hr _]; subst.
    destruct (binary_digit_char r Hr) as (_ & Hs & _).
    cbn [escrever split_from map]. now rewrite Hs.
  - inversion Hbin as [|? ? Hr Hrest]; subst.
    destruct (binary_digit_char r Hr) as (_ & Hs & _).
    change (escrever ws (r :: r' :: l))
      with (digit_char r :: ws ++ escrever ws (r' :: l)).
    cbn [split_from]. rewrite Hs.
    destruct ws as [|w ws]; [contradiction|].
    inversion Hws as [|? ? Hw Hws']; subst.
    cbn [app split_from]. rewrite Hw. cbn [rev app].
    rewrite split_from_skip by exact Hws'.
    rewrite (IH Hrest). reflexivity.
Qed.

Lemma py_int_binary (py : Interpreter) (r : Z) :
  r = 0%Z \/ r = 1%Z -> py_int py [digit_char r] = Ok r.
Proof.
  intros [-> | ->]; unfold py_int; simpl;
    destruct (int_max_str_digits py); reflexivity.
Qed.

Lemma int_each_binary (py : Interpreter) (l : list Z) :
  Forall (fun r => r = 0%Z \/ r = 1%Z) l ->
  int_each py (map (fun r => [digit_char r]) l) = Ok l.
Proof.
  induction 1 as [|r l Hr _ IH]; [reflexivity|].
  cbn [map int_each]. rewrite (py_int_binary py r Hr). cbn [bind].
  now rewrite IH.
Qed.

(** X25. What the application reads back from responses written one after
    the other is these responses: for any non-empty list of 0s and 1s and
    any non-empty separator made of commas and whitespace, the text is
    accepted and gives the list, in order. *)
Theorem ler_respostas_escrever (py : Interpreter) (sep : pystr)
        (l : list Z) :
  l <> [] -> Forall (fun r => r = 0%Z \/ r = 1%Z) l ->
  sep <> [] -> Forall separator sep ->
  ler_respostas py (escrever sep l) = Some l.
Proof.
  intros Hl Hbin Hsep Hchars. unfold ler_respostas.
  destruct (escrever sep l) as [|c s] eqn:E.
  - destruct l as [|r [|r' l]]; [contradiction|discriminate|discriminate].
  - rewrite <- E, replace_commas_escrever.
    rewrite split_escrever;
      [now rewrite int_each_binary
      | | now apply replace_commas_separators | exact Hbin].
    destruct sep; [contradiction|discriminate].
Qed.

Lemma ler_respostas_escrever_witness :
  ler_respostas cpython [49; 44; 32; 48; 44; 32; 49]%N = Some [1; 0; 1]%Z.
Proof.
  apply (ler_respostas_escrever cpython [44; 32]%N [1; 0; 1]%Z).
  - discriminate.
  - repeat (constructor; [first [left; reflexivity | right; reflexivity]|]).
    constructor.
  - discriminate.
  - constructor; [left; reflexivity|].
    constructor; [right; reflexivity|constructor].
Defined.

(** X26. A text that is not empty but holds separators only (commas,
    blanks, line ends) is not refused: it gives an empty response vector,
    where an empty text gives no responses at all. *)
Theorem ler_respostas_separators_only (py : Interpreter) (texto : pystr) :
  texto <> [] -> Forall separator texto ->
  ler_respostas py texto = Some [] /\ ler_respostas py [] = None.
Proof.
  intros Hne Hsep. split; [|reflexivity].
  unfold ler_respostas. destruct texto as [|c s]; [contradiction|].
  unfold split.
  rewrite <- (app_nil_r (replace_commas (c :: s))).
  rewrite split_from_skip by (now apply replace_commas_separators).
  reflexivity.
Qed.

Lemma ler_respostas_separators_only_witness :
  ler_respostas cpython [32; 44; 10]%N = Some []
  /\ ler_respostas cpython [] = None.
Proof.
  apply (ler_respostas_separators_only cpython [32; 44; 10]%N).
  - discriminate.
  - constructor; [right; reflexivity|].
    constructor; [left; reflexivity|].
    constructor; [right; reflexivity|constructor].
Defined.

Lemma lstrip_no_space (t : pystr) :
  Forall (fun ch => isspace ch = false) t -> lstrip t = t.
Proof.
  intros [|c t' Hc _]; [reflexivity|]. cbn [lstrip]. now rewrite Hc.
Qed.

Lemma strip_no_space (t : pystr) :
  Forall (fun ch => isspace ch = false) t -> strip t = t.
Proof.
  intros H. unfold strip. rewrite (lstrip_no_space t H).
  rewrite lstrip_no_space by (now apply Forall_rev).
  apply rev_involutive.
Qed.

Lemma int_digits_ascii (py : Interpreter) (ds : list N) (acc : Z) (n : nat) :
  Forall (fun d => (d < 10)%N) ds ->
  int_digits py (map (fun d => (48 + d)%N) ds) acc n false
  = Some (fold_left (fun v d => (10 * v + Z.of_N d)%Z) ds acc,
          (n + length ds)%nat).
Proof.
  intros H. revert acc n.
  induction H as [|d ds Hd _ IH]; intros acc n.
  - cbn. now rewrite Nat.add_0_r.
  - destruct (ascii_digit_facts py d Hd) as (_ & _ & Hu & _ & _ & Hv).
    cbn [map int_digits fold_left length]. rewrite Hu, Hv, IH.
    do 2 f_equal. lia.
Qed.

Lemma ascii_digits_no_space (py : Interpreter) (ds : list N) :
  Forall (fun d => (d < 10)%N) ds ->
  Forall (fun ch => isspace ch = false) (map (fun d => (48 + d)%N) ds).
Proof.
  intros H. apply Forall_map. eapply Forall_impl; [|exact H].
  intros d Hd. now destruct (ascii_digit_facts py d Hd).
Qed.

Lemma replace_commas_ascii_digits (py : Interpreter) (ds : list N) :
  Forall (fun d => (d < 10)%N) ds ->
  replace_commas (map (fun d => (48 + d)%N) ds)
  = map (fun d => (48 + d)%N) ds.
Proof.
  induction 1 as [|d ds Hd _ IH]; [reflexivity|].
  destruct (ascii_digit_facts py d Hd) as (_ & Hc & _).
  unfold replace_commas in *. cbn [map]. now rewrite Hc, IH.
Qed.

(** The integer [int] reads from ASCII digits, with or without a minus
    sign, when they are at most 640. *)
Lemma py_int_ascii_digits (py : Interpreter) (ds : list N) :
  ds <> [] -> Forall (fun d => (d < 10)%N) ds -> (length ds <= 640)%nat ->
  py_int py (map (fun d => (48 + d)%N) ds) = Ok (decimal ds)
  /\ py_int py (minus_sign :: map (fun d => (48 + d)%N) ds)
     = Ok (- decimal ds)%Z.
Proof.
  intros Hne Hds Hlen.
  pose proof (ascii_digits_no_space py ds Hds) as Hns.
  destruct ds as [|d ds]; [contradiction|].
  inversion Hds as [|? ? Hd Hds']; subst.
  destruct (ascii_digit_facts py d Hd) as (Hs & _ & _ & Hm & Hp & Hv).
  assert (Hlong : match int_max_str_digits py with
                  | Some limit =>
                      ((640 <? 1 + length ds) && (0 <? limit)
                       && (limit <? 1 + length ds))%nat
                  | None => false
                  end = false).
  { destruct (int_max_str_digits py); [|reflexivity].
    destruct (Nat.ltb_spec 640 (1 + length ds)); [simpl in *; lia|].
    reflexivity. }
  assert (Hdec : decimal (d :: ds)
                 = fold_left (fun v d0 => (10 * v + Z.of_N d0)%Z) ds
                             (Z.of_N d)).
  { unfold decimal. cbn [fold_left]. f_equal. }
  split.
  - unfold py_int. rewrite strip_no_space by exact Hns.
    cbn [map]. rewrite Hm, Hp, Hv.
    rewrite (int_digits_ascii py ds (Z.of_N d) 1 Hds'), Hlong.
    now rewrite Hdec.
  - unfold py_int. rewrite strip_no_space
      by (constructor; [reflexivity|exact Hns]).
    cbn [map]. rewrite N.eqb_refl, Hv.
    rewrite (int_digits_ascii py ds (Z.of_N d) 1 Hds'), Hlong.
    now rewrite Hdec.
Qed.

(** X27. The text is not checked for 0s and 1s: a token of at most 640
    ASCII digits, with or without a minus sign before it, is accepted and
    read as the integer it writes, so that any integer can reach the
    engine as a response. *)
Theorem ler_respostas_any_integer (py : Interpreter) (ds : list N) :
  ds <> [] -> Forall (fun d => (d < 10)%N) ds -> (length ds <= 640)%nat ->
  ler_respostas py (map (fun d => (48 + d)%N) ds) = Some [decimal ds]
  /\ ler_respostas py (minus_sign :: map (fun d => (48 + d)%N) ds)
     = Some [(- decimal ds)%Z].
Proof.
  intros Hne Hds Hlen.
  pose proof (ascii_digits_no_space py ds Hds) as Hns.
  destruct (py_int_ascii_digits py ds Hne Hds Hlen) as [Hpos Hneg].
  assert (Htok : forall t, t <> [] ->
                           Forall (fun ch => isspace ch = false) t ->
                           split t = [t]).
  { intros t Ht Hnt. unfold split.
    pose proof (split_from_run t [] [] Hnt) as Hrun.
    rewrite !app_nil_r in Hrun. rewrite Hrun. cbn [split_from].
    destruct (rev t) as [|c r] eqn:E.
    - apply (f_equal (@rev N)) in E. rewrite rev_involutive in E.
      contradiction.
    - rewrite <- E. now rewrite rev_involutive. }
  split.
  - unfold ler_respostas.
    destruct (map (fun d => (48 + d)%N) ds) as [|c s] eqn:E;
      [destruct ds; [contradiction|discriminate]|].
    rewrite <- E in *. rewrite (replace_commas_ascii_digits py ds Hds).
    rewrite Htok; [|rewrite E; discriminate|exact Hns].
    cbn [int_each]. now rewrite Hpos.
  - unfold ler_respostas.
    change (replace_commas (minus_sign :: map (fun d => (48 + d)%N) ds))
      with (minus_sign :: replace_commas (map (fun d => (48 + d)%N) ds)).
    rewrite (replace_commas_ascii_digits py ds Hds).
    rewrite Htok;
      [|discriminate|constructor; [reflexivity|exact Hns]].
    cbn [int_each]. now rewrite Hneg.
Qed.

Lemma ler_respostas_any_integer_witness :
  ler_respostas cpython [50; 55]%N = Some [27%Z]
  /\ ler_respostas cpython [45; 50; 55]%N = Some [(-27)%Z].
Proof.
  apply (ler_respostas_any_integer cpython [2; 7]%N).
  - discriminate.
  - repeat (constructor; [reflexivity|]). constructor.
  - simpl. lia.
Defined.

Lemma in_lstrip (s : pystr) (ch : N) :
  In ch s -> isspace ch = false -> In ch (lstrip s).
Proof.
  intros Hin Hch. induction s as [|c s IH]; [contradiction|].
  cbn [lstrip]. destruct (isspace c) eqn:Ec; [|exact Hin].
  destruct Hin as [-> | Hin]; [congruence|now apply IH].
Qed.

Lemma in_strip (s : pystr) (ch : N) :
  In ch s -> isspace ch = false -> In ch (strip s).
Proof.
  intros Hin Hch. unfold strip.
  apply (proj1 (in_rev _ _)). apply in_lstrip; [|exact Hch].
  apply (proj1 (in_rev _ _)). now apply in_lstrip.
Qed.

Lemma int_digits_invalid (py : Interpreter) (s : pystr) (ch : N)
      (acc : Z) (n : nat) (u : bool) :
  In ch s -> ch <> underscore -> digit_value py ch = None ->
  int_digits py s acc n u = None.
Proof.
  intros Hin Hu Hd. revert acc n u.
  induction s as [|c s IH]; intros acc n u; [contradiction|].
  cbn [int_digits]. destruct Hin as [-> | Hin].
  - destruct (N.eqb_spec ch underscore); [contradiction|]. now rewrite Hd.
  - destruct (c =? underscore)%N.
    + destruct u; [reflexivity|now apply IH].
    + destruct (digit_value py c); [now apply IH|reflexivity].
Qed.

(** [int] raises on a token that holds a character it has no use for. *)
Lemma py_int_invalid (py : Interpreter) (t : pystr) (ch : N) :
  In ch t -> isspace ch = false ->
  ch <> plus_sign -> ch <> minus_sign -> ch <> underscore ->
  digit_value py ch = None ->
  py_int py t = Raise ValueError.
Proof.
  intros Hin Hs Hp Hm Hu Hd. unfold py_int.
  pose proof (in_strip t ch Hin Hs) as Hin'.
  destruct (strip t) as [|c s]; [contradiction|].
  assert (Hbody : forall body, In ch body ->
            match body with
            | [] => Raise ValueError
            | c0 :: body' =>
                match digit_value py c0 with
                | None => Raise ValueError
                | Some d =>
                    match int_digits py body' (Z.of_N d) 1 false with
                    | None => Raise ValueError
                    | Some (v, n) =>
                        if match int_max_str_digits py with
                           | Some limit => ((640 <? n) && (0 <? limit) && (limit <? n))%nat
                           | None => false
                           end
                        then Raise ValueError
                        else Ok v
                    end
                end
            end = @Raise Z ValueError
            /\ match body with
               | [] => Raise ValueError
               | c0 :: body' =>
                   match digit_value py c0 with
                   | None => Raise ValueError
                   | Some d =>
                       match int_digits py body' (Z.of_N d) 1 false with
                       | None => Raise ValueError
                       | Some (v, n) =>
                           if match int_max_str_digits py with
                              | Some limit => ((640 <? n) && (0 <? limit) && (limit <? n))%nat
                              | None => false
                              end
                           then Raise ValueError
                           else Ok (- v)%Z
                       end
                   end
               end = @Raise Z ValueError).
  { intros [|c0 body'] Hb; [contradiction|].
    destruct Hb as [-> | Hb].
    - rewrite Hd. now split.
    - destruct (digit_value py c0); [|now split].
      rewrite (int_digits_invalid py body' ch _ _ _ Hb Hu Hd). now split. }
  destruct (N.eqb_spec c minus_sign) as [->|Hcm].
  - destruct Hin' as [E|Hin']; [congruence|]. apply (Hbody s Hin').
  - destruct (N.eqb_spec c plus_sign) as [->|Hcp].
    + destruct Hin' as [E|Hin']; [congruence|]. apply (Hbody s Hin').
    + apply (Hbody (c :: s) Hin').
Qed.

Lemma split_from_token_of_tok (s tok : pystr) (c : N) :
  In c tok -> exists t, In t (split_from s tok) /\ In c t.
Proof.
  revert tok. induction s as [|x s IH]; intros tok Hin.
  - destruct tok as [|y tok]; [contradiction|].
    exists (rev (y :: tok)).
    split; [now left|exact (proj1 (in_rev _ _) Hin)].
  - cbn [split_from]. destruct (isspace x).
    + destruct tok as [|y tok]; [contradiction|].
      exists (rev (y :: tok)).
      split; [now left|exact (proj1 (in_rev _ _) Hin)].
    + apply IH. now right.
Qed.

(** Every character that is not whitespace ends in a token. *)
Lemma split_from_token_of_text (s tok : pystr) (c : N) :
  In c s -> isspace c = false ->
  exists t, In t (split_from s tok) /\ In c t.
Proof.
  revert tok. induction s as [|x s IH]; intros tok Hin Hc; [contradiction|].
  cbn [split_from]. destruct Hin as [-> | Hin].
  - rewrite Hc. apply split_from_token_of_tok. now left.
  - destruct (isspace x).
    + destruct tok as [|y tok]; [now apply IH|].
      destruct (IH [] Hin Hc) as [t [Ht Hct]].
      exists t. split; [now right|exact Hct].
    + now apply IH.
Qed.

Lemma int_each_raises (py : Interpreter) (toks : list pystr) (t : pystr) :
  In t toks -> py_int py t = Raise ValueError ->
  int_each py toks = Raise ValueError.
Proof.
  intros Hin Ht. induction toks as [|t0 toks IH]; [contradiction|].
  cbn [int_each]. destruct Hin as [-> | Hin].
  - now rewrite Ht.
  - destruct (py_int py t0) as [v|e] eqn:E; cbn [bind].
    + now rewrite (IH Hin).
    + f_equal. clear - E. unfold py_int in E.
      repeat match type of E with
             | context [match ?u with _ => _ end] => destruct u
             | context [if ?u then _ else _] => destruct u
             end; congruence.
Qed.

(** X28. One stray character spoils the whole text: when the text holds a
    character that is no whitespace, no comma, no sign, no underscore and no
    decimal digit, no response is read at all, whatever else the text
    holds. *)
Theorem ler_respostas_rejects (py : Interpreter) (texto : pystr) (ch : N) :
  In ch texto -> isspace ch = false -> ch <> comma ->
  ch <> plus_sign -> ch <> minus_sign -> ch <> underscore ->
  digit_value py ch = None ->
  ler_respostas py texto = None.
Proof.
  intros Hin Hs Hc Hp Hm Hu Hd. unfold ler_respostas.
  destruct texto as [|c0 s0] eqn:E; [reflexivity|]. rewrite <- E in *.
  assert (Hin' : In ch (replace_commas texto)).
  { unfold replace_commas. apply in_map_iff. exists ch. split; [|exact Hin].
    destruct (N.eqb_spec ch comma); [contradiction|reflexivity]. }
  destruct (split_from_token_of_text _ [] ch Hin' Hs) as [t [Ht Hct]].
  fold (split (replace_commas texto)) in Ht.
  rewrite (int_each_raises py _ t Ht
             (py_int_invalid py t ch Hct Hs Hp Hm Hu Hd)).
  reflexivity.
Qed.

Lemma ler_respostas_rejects_witness :
  ler_respostas cpython [49; 32; 120; 32; 48]%N = None.
Proof.
  apply (ler_respostas_rejects cpython [49; 32; 120; 32; 48]%N 120%N);
    try reflexivity; try discriminate.
  simpl. tauto.
Defined.

(** * The parameters the application simulates *)

Lemma map_seq_increasing (f : nat -> R) (a n : nat) :
  (forall i j, (i < j)%nat -> f i < f j) ->
  StronglySorted Rlt (map f (seq a n)).
Proof.
  intros Hf. revert a. induction n as [|n IH]; intros a; [constructor|].
  cbn [seq map]. constructor; [apply IH|].
  apply Forall_map, Forall_forall. intros i Hi. apply in_seq in Hi.
  apply Hf. lia.
Qed.

Lemma linspace_increasing (start stop : R) (num : nat) :
  start < stop -> StronglySorted Rlt (np_linspace start stop num).
Proof.
  intros H. unfold np_linspace.
  destruct num as [|[|n]]; [constructor|repeat constructor|].
  apply map_seq_increasing. intros i j Hij.
  assert (Hstep : 0 < (stop - start) / INR (S (S n) - 1)).
  { apply Rdiv_lt_0_compat; [lra|]. apply lt_0_INR. simpl. lia. }
  apply lt_INR in Hij. nra.
Qed.

Lemma linspace_length (start stop : R) (num : nat) :
  length (np_linspace start stop num) = num.
Proof.
  unfold np_linspace. destruct num as [|[|n]]; try reflexivity.
  now rewrite length_map, length_seq.
Qed.

Lemma linspace_range (start stop : R) (num : nat) :
  start <= stop ->
  Forall (fun v => start <= v <= stop) (np_linspace start stop num).
Proof.
  intros H. unfold np_linspace.
  destruct num as [|[|n]]; [constructor|constructor; [lra|constructor]|].
  apply Forall_map, Forall_forall. intros i Hi. apply in_seq in Hi.
  set (m := INR (S (S n) - 1)).
  assert (Hm : 0 < m) by (apply lt_0_INR; simpl; lia).
  assert (Hi0 : 0 <= INR i) by apply pos_INR.
  assert (Him : INR i <= m) by (apply le_INR; simpl; lia).
  assert (Hq : 0 <= INR i / m <= 1).
  { split.
    - apply Rmult_le_pos; [exact Hi0|]. left. now apply Rinv_0_lt_compat.
    - apply Rmult_le_reg_r with m; [exact Hm|].
      unfold Rdiv. rewrite Rmult_assoc, Rinv_l by lra. lra. }
  replace (INR i * ((stop - start) / m))
    with ((stop - start) * (INR i / m)) by (field; lra).
  split; nra.
Qed.

(** Below a threshold, the items of increasing difficulty are the first
    ones. *)
Lemma filter_below_is_prefix (r : list Z) (b : list R) (s : R) :
  StronglySorted Rlt b ->
  exists k, filter (fun it : Z * R => np.Rltb (snd it) s) (combine r b)
            = firstn k (combine r b).
Proof.
  intros Hb. revert r. induction Hb as [|b0 b Hb IH Hall]; intros r.
  - exists 0%nat. now destruct r.
  - destruct r as [|r0 r]; [now exists 0%nat|].
    cbn [combine filter snd]. unfold np.Rltb at 1.
    destruct (Rlt_dec b0 s) as [Hlt|Hge].
    + destruct (IH r) as [k Hk]. exists (S k). cbn [firstn]. now rewrite Hk.
    + exists 0%nat. cbn [firstn].
      clear IH. revert r. induction Hall as [|b1 b H1 Hall' IH']; intros r.
      * now destruct r.
      * destruct r as [|r1 r]; [reflexivity|].
        cbn [combine filter snd]. unfold np.Rltb at 1.
        destruct (Rlt_dec b1 s); [lra|].
        inversion Hb; subst. now apply IH'.
Qed.

(** What [parametros_simulados] returns. *)
Lemma parametros_simulados_outcome (G : Generator) (respostas : list Z)
      (st : rng G) :
  GeneratorSpec G ->
  exists (a c : list R) (st' : rng G),
    parametros_simulados G respostas st
    = Ok (a, np_linspace (-3) 3 (length respostas), c, st')
    /\ length a = length respostas /\ length c = length respostas
    /\ Forall (fun v => 0.8 <= v < 2.5) a
    /\ Forall (fun v => 0.15 <= v < 0.25) c.
Proof.
  intros HG. unfold parametros_simulados. rewrite seed_42. cbn [bind].
  pose proof (uniform_length G HG 0.8 2.5 (length respostas) (seeded G 42))
    as Ha.
  pose proof (uniform_range G HG 0.8 2.5 (length respostas) (seeded G 42)
                ltac:(lra)) as Hra.
  destruct (uniform G 0.8 2.5 (length respostas) (seeded G 42)) as [a st1].
  cbn [fst] in *.
  pose proof (uniform_length G HG 0.15 0.25 (length respostas) st1) as Hc.
  pose proof (uniform_range G HG 0.15 0.25 (length respostas) st1
                ltac:(lra)) as Hrc.
  destruct (uniform G 0.15 0.25 (length respostas) st1) as [c st2].
  cbn [fst] in *.
  exists a, c, st2. repeat split; assumption.
Qed.

(** X29. The parameters the application simulates do not depend on the
    state of the generator nor on the responses' values: one parameter per
    response, discriminations within [[0.8, 2.5)], guessing floors within
    [[0.15, 0.25)], and difficulties that go from -3 to 3 in strictly
    increasing order along the questions. *)
Theorem parametros_simulados_ranges (G : Generator) (respostas : list Z)
        (st : rng G) :
  GeneratorSpec G ->
  exists (a b c : list R) (st' : rng G),
    parametros_simulados G respostas st = Ok (a, b, c, st')
    /\ (forall (outras : list Z) (st2 : rng G),
           length outras = length respostas ->
           parametros_simulados G outras st2 = Ok (a, b, c, st'))
    /\ length a = length respostas /\ length b = length respostas
    /\ length c = length respostas
    /\ Forall (fun v => 0.8 <= v < 2.5) a
    /\ Forall (fun v => -3 <= v <= 3) b
    /\ StronglySorted Rlt b
    /\ Forall (fun v => 0.15 <= v < 0.25) c.
Proof.
  intros HG.
  destruct (parametros_simulados_outcome G respostas st HG)
    as (a & c & st' & Hrun & Ha & Hc & Hra & Hrc).
  exists a, (np_linspace (-3) 3 (length respostas)), c, st'.
  split; [exact Hrun|]. split.
  - intros outras st2 Hlen. rewrite <- Hrun.
    unfold parametros_simulados. rewrite !seed_42, Hlen. reflexivity.
  - repeat split; try assumption.
    + apply linspace_length.
    + apply linspace_range. lra.
    + apply linspace_increasing. lra.
Qed.

Lemma parametros_simulados_ranges_witness :
  exists (a b c : list R) (st' : rng lowest_generator),
    parametros_simulados lowest_generator [1; 0; 1]%Z 5%nat = Ok (a, b, c, st')
    /\ (forall (outras : list Z) (st2 : rng lowest_generator),
           length outras = 3%nat ->
           parametros_simulados lowest_generator outras st2
           = Ok (a, b, c, st'))
    /\ length a = 3%nat /\ length b = 3%nat /\ length c = 3%nat
    /\ Forall (fun v => 0.8 <= v < 2.5) a
    /\ Forall (fun v => -3 <= v <= 3) b
    /\ StronglySorted Rlt b
    /\ Forall (fun v => 0.15 <= v < 0.25) c.
Proof.
  apply (parametros_simulados_ranges lowest_generator [1; 0; 1]%Z 5%nat
                                     lowest_generator_spec).
Defined.

(** X30. With the simulated parameters the easy items are the first
    questions of the test: whatever the ability, the easy subset the
    coherence rule looks at is made of the first [k] responses, for some
    [k], so that the label depends on these alone. *)
Theorem parametros_simulados_easy_prefix (G : Generator)
        (respostas : list Z) (st : rng G) (theta : R) :
  GeneratorSpec G ->
  exists (a b c : list R) (st' : rng G) (k : nat),
    parametros_simulados G respostas st = Ok (a, b, c, st')
    /\ easy_subset theta respostas b = firstn k (combine respostas b)
    /\ map fst (easy_subset theta respostas b) = firstn k respostas.
Proof.
  intros HG.
  destruct (parametros_simulados_outcome G respostas st HG)
    as (a & c & st' & Hrun & _).
  set (b := np_linspace (-3) 3 (length respostas)) in *.
  destruct (filter_below_is_prefix respostas b (theta - 1.0)
              (linspace_increasing (-3) 3 _ ltac:(lra))) as [k Hk].
  exists a, b, c, st', k. split; [exact Hrun|].
  unfold easy_subset. rewrite Hk. split; [reflexivity|].
  rewrite <- firstn_map, map_fst_combine; [reflexivity|].
  unfold b. now rewrite linspace_length.
Qed.

Lemma parametros_simulados_easy_prefix_witness :
  exists (a b c : list R) (st' : rng lowest_generator) (k : nat),
    parametros_simulados lowest_generator [1; 0; 1]%Z 5%nat = Ok (a, b, c, st')
    /\ easy_subset 0.5 [1; 0; 1]%Z b = firstn k (combine [1; 0; 1]%Z b)
    /\ map fst (easy_subset 0.5 [1; 0; 1]%Z b) = firstn k [1; 0; 1]%Z.
Proof.
  apply (parametros_simulados_easy_prefix lowest_generator [1; 0; 1]%Z 5%nat
                                          0.5 lowest_generator_spec).
Defined.

Lemma to_enem_score_default_scale_witness :
  0 <= to_enem_score (__init__ None None) 4.5 <= 1000.
Proof.
  apply (proj2 (to_enem_score_default_scale 4.5)). lra.
Defined.

Lemma recomendacao_by_ability_witness :
  recomendacao (to_enem_score (__init__ None None) 3.5) = st_info.
Proof.
  apply (proj1 (proj2 (recomendacao_by_ability 3.5))). lra.
Defined.
